(** * profitcalc: single-unit e-commerce profit calculator

    A shallow embedding of [profitcalc.py].  The script reads four widget
    values (product price, COGS, calculation mode, desired CPA or ROAS),
    computes Shopify fees, breakeven metrics, ad spend, CPA, ROAS and profit,
    and hands four labelled values to a Plotly chart.

    The Python code computes on [float] (IEEE 754 binary64).  The program is
    written once below, over an interface [Arith] listing the operations of
    Python numbers it uses, and is run at the instance [binary64]: Rocq's
    primitive floats, which are the numbers Python computes with (same
    format, same rounding to nearest, ties to even).
    What follows from the shape of the code alone is proved for every
    instance of the interface; what depends on the arithmetic (orders, signs,
    exact zeros) is proved for [binary64], from the specification of the
    primitive floats. *)

From Stdlib Require Import ZArith QArith Lia Bool List String.
From Stdlib Require Import Floats.
Import ListNotations.

Set Implicit Arguments.
Set Warnings "-inexact-float".

(** ** Exceptions *)

(** The only exception the arithmetic of the script can raise. *)
Inductive exn : Type := ZeroDivisionError.

Inductive result (A : Type) : Type :=
| Ok (a : A)
| Raise (e : exn).

Arguments Ok {A} a.
Arguments Raise {A} e.

Definition bind {A B : Type} (c : result A) (k : A -> result B) : result B :=
  match c with
  | Ok a => k a
  | Raise e => Raise e
  end.

Declare Scope py_scope.
Delimit Scope py_scope with py.

Notation "x <- c ;; k" := (bind c (fun x => k))
  (at level 61, c at next level, right associativity) : py_scope.
Notation "' pat <- c ;; k" := (bind c (fun x => match x with pat => k end))
  (at level 61, pat pattern, c at next level, right associativity) : py_scope.

(** ** Numbers *)

(** The operations of Python numbers the script uses.  [lit q] is the value
    of the decimal literal [q]; [quot] is the quotient by a divisor that is
    not zero; [eqb], [ltb] and [leb] are [==], [<] and [<=]. *)
Class Arith (F : Type) : Type := {
  lit : Q -> F;
  add : F -> F -> F;
  sub : F -> F -> F;
  mul : F -> F -> F;
  quot : F -> F -> F;
  eqb : F -> F -> bool;
  ltb : F -> F -> bool;
  leb : F -> F -> bool
}.

Arguments lit {F _} q%_Q.

Notation "x + y" := (add x y) : py_scope.
Notation "x - y" := (sub x y) : py_scope.
Notation "x * y" := (mul x y) : py_scope.
Notation "x == y" := (eqb x y) (at level 70, no associativity) : py_scope.
Notation "x != y" := (negb (eqb x y)) (at level 70, no associativity) : py_scope.
Notation "x > y" := (ltb y x) : py_scope.
Notation "x >= y" := (leb y x) : py_scope.
Notation "x <= y" := (leb x y) : py_scope.

(** Facts about [==], [<] and [<=] against zero that the guards of the
    script rely on. *)
Class Comparisons (F : Type) `{Arith F} : Prop := {
  gt_zero_ne : forall x : F, ltb (lit 0) x = true -> eqb x (lit 0) = false;
  le_zero_not_gt : forall x : F, leb x (lit 0) = true -> ltb (lit 0) x = false
}.

Arguments Comparisons F {_}.

(** *** Binary64 *)

Definition float_of_Z (z : Z) : float :=
  match z with
  | Z0 => 0%float
  | Zpos _ => PrimFloat.of_uint63 (Uint63.of_Z z)
  | Zneg p => (- PrimFloat.of_uint63 (Uint63.of_Z (Zpos p)))%float
  end.

(** A decimal literal denotes the float nearest to it: for the literals of
    the script, the correctly rounded quotient of two small integers. *)
Definition float_lit (q : Q) : float :=
  (float_of_Z (Qnum q) / float_of_Z (Zpos (Qden q)))%float.

#[export] Instance binary64 : Arith float := {
  lit := float_lit;
  add := PrimFloat.add;
  sub := PrimFloat.sub;
  mul := PrimFloat.mul;
  quot := PrimFloat.div;
  eqb := PrimFloat.eqb;
  ltb := PrimFloat.ltb;
  leb := PrimFloat.leb
}.

(** ** The program *)

Section Program.

Context {F : Type} `{Arith F}.

Local Open Scope py_scope.

(** [x / y]: Python raises [ZeroDivisionError] when the divisor equals 0. *)
Definition truediv (x y : F) : result F :=
  if y == lit 0 then Raise ZeroDivisionError else Ok (quot x y).

Notation "x / y" := (truediv x y) : py_scope.

Definition calculate_shopify_fees (product_price : F) : F :=
  lit 0.029 * product_price + lit 0.30.

(** The dict returned by [calculate_breakeven_metrics], with its two keys. *)
Record breakeven_metrics : Type := {
  breakeven_cpa : F;
  breakeven_roas : F
}.

Definition calculate_breakeven_metrics (p c fees : F) : result breakeven_metrics :=
  let ad_spend_breakeven := p - c - fees in
  let breakeven_cpa := ad_spend_breakeven in
  breakeven_roas <-
    (if ad_spend_breakeven != lit 0
     then p / ad_spend_breakeven
     else Ok (lit 0)) ;;
  Ok {| breakeven_cpa := breakeven_cpa; breakeven_roas := breakeven_roas |}.

(** The value of [st.radio("Calculation Mode", ("CPA", "ROAS"))]. *)
Inductive calculation_mode : Type := CPA | ROAS.

(** The value of [st.selectbox("Select Chart Type", ...)]. *)
Inductive chart_type : Type := PieChart | BarChart.

(** What reaches Plotly: [px.pie(names=labels, values=values, ...)] or
    [px.bar(x=labels, y=values, ...)]. *)
Inductive figure : Type :=
| px_pie (names : list string) (values : list F)
| px_bar (x : list string) (y : list F).

Definition fig_labels (fig : figure) : list string :=
  match fig with
  | px_pie names _ => names
  | px_bar x _ => x
  end.

Definition fig_values (fig : figure) : list F :=
  match fig with
  | px_pie _ values => values
  | px_bar _ y => y
  end.

(** Section 3 of the script, "Mode-Specific Logic": the ad spend, CPA and
    ROAS for the chosen mode.  [mode_value] is the number read from the
    widget of that mode ([desired_cpa] or [desired_roas]). *)
Definition mode_specific_logic (product_price : F) (mode : calculation_mode)
    (mode_value : F) : result (F * F * F) :=
  match mode with
  | CPA =>
      let desired_cpa := mode_value in
      let ad_spend := desired_cpa in
      final_roas <-
        (if ad_spend > lit 0 then product_price / ad_spend else Ok (lit 0)) ;;
      let final_cpa := desired_cpa in
      Ok (ad_spend, final_cpa, final_roas)
  | ROAS =>
      let desired_roas := mode_value in
      if desired_roas > lit 0 then
        ad_spend <- product_price / desired_roas ;;
        let final_cpa := ad_spend in
        let final_roas := desired_roas in
        Ok (ad_spend, final_cpa, final_roas)
      else
        Ok (lit 0, lit 0, lit 0)
  end.

(** The values the script has computed when it ends. *)
Record page : Type := {
  shopify_fees : F;
  breakeven_data : breakeven_metrics;
  ad_spend : F;
  final_cpa : F;
  final_roas : F;
  profit : F;
  fig : figure
}.

Definition labels : list string :=
  ["COGS"; "Shopify Fees"; "Ad Spend"; "Profit"]%string.

(** The script, from the widget values to the page. *)
Definition profitcalc (product_price cogs : F) (mode : calculation_mode)
    (mode_value : F) (chart : chart_type) : result page :=
  let shopify_fees := calculate_shopify_fees product_price in
  breakeven_data <- calculate_breakeven_metrics product_price cogs shopify_fees ;;
  '(ad_spend, final_cpa, final_roas) <-
    mode_specific_logic product_price mode mode_value ;;
  let profit := product_price - cogs - shopify_fees - ad_spend in
  let values := [cogs; shopify_fees; ad_spend; profit] in
  let fig :=
    match chart with
    | PieChart => px_pie labels values
    | BarChart => px_bar labels values
    end in
  Ok {| shopify_fees := shopify_fees;
        breakeven_data := breakeven_data;
        ad_spend := ad_spend;
        final_cpa := final_cpa;
        final_roas := final_roas;
        profit := profit;
        fig := fig |}.

End Program.

Arguments breakeven_metrics F : clear implicits.
Arguments figure F : clear implicits.
Arguments page F : clear implicits.


(** ** The comparisons of binary64 *)

Lemma Prim2SF_zero : Prim2SF (float_lit 0) = S754_zero false.
Proof. vm_compute. reflexivity. Qed.

#[export] Instance binary64_comparisons : Comparisons float.
Proof.
  split; cbn [lit add sub mul quot eqb ltb leb binary64]; intros x.
  - rewrite ltb_spec, eqb_spec, Prim2SF_zero.
    destruct (Prim2SF x) as [s|s| |s m e]; try destruct s; cbn;
      congruence.
  - rewrite ltb_spec, leb_spec, Prim2SF_zero.
    destruct (Prim2SF x) as [s|s| |s m e]; try destruct s; cbn;
      congruence.
Qed.

(** ** What the code computes, for every instance *)

Section Shape.

Context {F : Type} `{Arith F}.

Local Open Scope py_scope.

(** A division behind a guard [y != 0] does not raise. *)
Lemma truediv_nonzero (x y : F) :
  (y == lit 0) = false -> truediv x y = Ok (quot x y).
Proof.
  intros Hy. unfold truediv. rewrite Hy. reflexivity.
Qed.

Lemma truediv_zero (x y : F) :
  (y == lit 0) = true -> truediv x y = Raise ZeroDivisionError.
Proof.
  intros Hy. unfold truediv. rewrite Hy. reflexivity.
Qed.

Lemma breakeven_eq (p c fees : F) :
  calculate_breakeven_metrics p c fees =
  Ok {| breakeven_cpa := p - c - fees;
        breakeven_roas :=
          if p - c - fees == lit 0 then lit 0 else quot p (p - c - fees) |}.
Proof.
  unfold calculate_breakeven_metrics, truediv.
  destruct (p - c - fees == lit 0); reflexivity.
Qed.

(** The ad spend, CPA and ROAS of each mode, in closed form. *)
Definition resolved (product_price : F) (mode : calculation_mode)
    (mode_value : F) : F * F * F :=
  match mode with
  | CPA =>
      (mode_value, mode_value,
       if mode_value > lit 0 then quot product_price mode_value else lit 0)
  | ROAS =>
      if mode_value > lit 0
      then (quot product_price mode_value, quot product_price mode_value,
            mode_value)
      else (lit 0, lit 0, lit 0)
  end.

Context {HC : Comparisons F}.

(** A division behind a guard [y > 0] does not raise. *)
Lemma truediv_positive (x y : F) :
  (y > lit 0) = true -> truediv x y = Ok (quot x y).
Proof.
  intros Hy. apply truediv_nonzero, gt_zero_ne, Hy.
Qed.

Lemma eq_zero_not_gt (x : F) : (x == lit 0) = true -> (x > lit 0) = false.
Proof.
  intros He. destruct (x > lit 0) eqn:Hx; [|reflexivity].
  rewrite (gt_zero_ne _ Hx) in He. discriminate.
Qed.

Lemma mode_specific_logic_eq (p : F) (m : calculation_mode) (v : F) :
  mode_specific_logic p m v = Ok (resolved p m v).
Proof.
  destruct m; unfold mode_specific_logic, resolved;
    destruct (v > lit 0) eqn:Hv; try reflexivity;
    rewrite (truediv_positive p _ Hv); reflexivity.
Qed.

(** The script does not raise, and its page holds these values. *)
Lemma profitcalc_eq (p c : F) (m : calculation_mode) (v : F) (ch : chart_type) :
  exists r : page F,
    profitcalc p c m v ch = Ok r /\
    shopify_fees r = calculate_shopify_fees p /\
    calculate_breakeven_metrics p c (shopify_fees r) = Ok (breakeven_data r) /\
    (ad_spend r, final_cpa r, final_roas r) = resolved p m v /\
    profit r = p - c - shopify_fees r - ad_spend r /\
    fig_labels (fig r) = labels /\
    fig_values (fig r) = [c; shopify_fees r; ad_spend r; profit r].
Proof.
  unfold profitcalc.
  rewrite breakeven_eq, mode_specific_logic_eq. cbn [bind].
  destruct (resolved p m v) as [[a k] o] eqn:Hr.
  eexists. split; [reflexivity|]. cbn.
  rewrite breakeven_eq.
  repeat split; destruct ch; reflexivity.
Qed.

End Shape.

Section PageShape.

Context {F : Type} `{Comparisons F}.

Local Open Scope py_scope.

(** The page in terms of the inputs.  The breakeven CPA of the page is
    [p - c - shopify_fees], the first three terms of the profit, computed by
    the same subtractions. *)
Lemma page_breakeven (p c : F) (m : calculation_mode) (v : F)
    (ch : chart_type) :
  exists r : page F,
    profitcalc p c m v ch = Ok r /\
    (ad_spend r, final_cpa r, final_roas r) = resolved p m v /\
    shopify_fees r = calculate_shopify_fees p /\
    breakeven_cpa (breakeven_data r) = p - c - calculate_shopify_fees p /\
    breakeven_roas (breakeven_data r) =
      (if p - c - calculate_shopify_fees p == lit 0 then lit 0
       else quot p (p - c - calculate_shopify_fees p)) /\
    profit r = p - c - calculate_shopify_fees p - ad_spend r /\
    fig_values (fig r) = [c; shopify_fees r; ad_spend r; profit r].
Proof.
  destruct (profitcalc_eq p c m v ch)
    as (r & Hr & Hf & Hb & Hm & Hp & _ & Hv).
  exists r. split; [exact Hr|]. split; [exact Hm|]. split; [exact Hf|].
  rewrite breakeven_eq in Hb. injection Hb as Hb.
  rewrite <- Hb, Hp, Hf. cbn [breakeven_cpa breakeven_roas].
  rewrite Hv, Hp, Hf. repeat split.
Qed.

End PageShape.

(** ** Binary64 arithmetic *)

Section Binary64.

Local Open Scope float_scope.

(** A finite float is a zero or has a mantissa and an exponent. *)
Lemma finite_cases (x : float) :
  is_finite x = true ->
  (exists s, Prim2SF x = S754_zero s) \/
  (exists s m e, Prim2SF x = S754_finite s m e).
Proof.
  unfold is_finite. rewrite negb_true_iff, orb_false_iff. intros [Hn Hi].
  unfold Prim2SF. rewrite Hn, Hi.
  destruct (is_zero x); [left; eexists; reflexivity|].
  destruct (Z.frexp x) as [r ex].
  destruct (shr_fexp _ _ _ _ _) as [sh e'].
  destruct (shr_m sh); [left|right|left]; repeat eexists.
Qed.

(** Subtracting a finite float from itself leaves +0.0, with no rounding. *)
Lemma sub_diag_finite (x : float) : is_finite x = true -> x - x = 0.
Proof.
  intros Hx. apply Prim2SF_inj. rewrite sub_spec.
  destruct (finite_cases x Hx) as [[s ->]|(s & m & e & ->)].
  - destruct s; reflexivity.
  - unfold SF64sub, SFsub. rewrite Z.sub_diag. reflexivity.
Qed.

(** Two floats that [==] tells apart are different. *)
Lemma float_eqb_false_neq (x y : float) :
  PrimFloat.eqb x y = false -> is_nan x = false -> x <> y.
Proof.
  intros He Hn Hxy. subst y. unfold is_nan in Hn.
  rewrite He in Hn. discriminate.
Qed.

(** A float that is not finite is a NaN or an infinity. *)
Lemma nonfinite_cases (x : float) :
  is_finite x = false ->
  Prim2SF x = S754_nan \/ exists s, Prim2SF x = S754_infinity s.
Proof.
  unfold is_finite. rewrite negb_false_iff, orb_true_iff.
  destruct (is_nan x) eqn:Hn.
  - intros _. left. unfold Prim2SF. rewrite Hn. reflexivity.
  - intros [Hf|Hi]; [discriminate|]. right.
    unfold is_infinity in Hi. rewrite eqb_spec, abs_spec in Hi.
    change (Prim2SF infinity) with (S754_infinity false) in Hi.
    destruct (Prim2SF x) as [s|s| |s m e]; try discriminate Hi.
    exists s. reflexivity.
Qed.

(** Subtracting from itself a float that is not finite leaves a NaN. *)
Lemma sub_diag_nonfinite (x : float) :
  is_finite x = false -> is_nan (x - x) = true.
Proof.
  intros Hx. unfold is_nan. rewrite eqb_spec, sub_spec.
  destruct (nonfinite_cases x Hx) as [E|[s E]]; rewrite E;
    [|destruct s]; reflexivity.
Qed.

Lemma SFmul_comm (x y : spec_float) :
  SFmul prec emax x y = SFmul prec emax y x.
Proof.
  destruct x as [sx|sx| |sx mx ex], y as [sy|sy| |sy my ey];
    unfold SFmul; try reflexivity;
    rewrite (xorb_comm sx sy); try reflexivity.
  rewrite (Pos.mul_comm mx my), (Z.add_comm ex ey). reflexivity.
Qed.

(** The product of two floats does not depend on their order. *)
Lemma mul_comm_binary64 (x y : float) : x * y = y * x.
Proof.
  apply Prim2SF_inj. rewrite !mul_spec. apply SFmul_comm.
Qed.

End Binary64.


(** ** Rounding in binary64

    Python's [*] and [+] on floats round the exact result to the nearest
    binary64 number, ties to even.  This part characterises that rounding on
    the specification of Rocq's primitive floats ([SpecFloat]) and shows that
    it keeps the order of the exact results; the monotonicity of
    [calculate_shopify_fees] in binary64 follows from it. *)

Section Rounding.

Local Open Scope Z_scope.

(** *** Digits and right shifts *)

Lemma digits2_size (m : positive) : digits2_pos m = Pos.size m.
Proof. induction m; cbn; congruence. Qed.

Lemma digits2_bounds (m : positive) :
  2 ^ (Zpos (digits2_pos m) - 1) <= Zpos m < 2 ^ Zpos (digits2_pos m).
Proof.
  rewrite digits2_size. split.
  - pose proof (Pos.size_le m) as Hle.
    assert (Hz : Zpos (2 ^ Pos.size m) <= Zpos m~0) by exact Hle.
    rewrite Pos2Z.inj_pow in Hz.
    replace (Zpos (Pos.size m)) with (Z.succ (Zpos (Pos.size m) - 1)) in Hz by lia.
    rewrite Z.pow_succ_r in Hz by lia. lia.
  - pose proof (Pos.size_gt m) as Hgt.
    assert (Hz : Zpos m < Zpos (2 ^ Pos.size m)) by exact Hgt.
    rewrite Pos2Z.inj_pow in Hz. exact Hz.
Qed.

Lemma iter_pos_comm {A : Type} (f : A -> A) (p : positive) (x : A) :
  iter_pos f p (f x) = f (iter_pos f p x).
Proof.
  revert x. induction p as [p IH|p IH|]; intros x; cbn [iter_pos].
  - rewrite !IH. reflexivity.
  - rewrite !IH. reflexivity.
  - reflexivity.
Qed.

Lemma iter_pos_nat {A : Type} (f : A -> A) (p : positive) (x : A) :
  iter_pos f p x = Nat.iter (Pos.to_nat p) f x.
Proof.
  transitivity (Pos.iter f x p); [|apply Pos2Nat.inj_iter].
  revert x. induction p as [p IH|p IH|]; intros x; cbn [iter_pos Pos.iter].
  - rewrite iter_pos_comm, iter_pos_comm, !IH. reflexivity.
  - rewrite !IH. reflexivity.
  - reflexivity.
Qed.

(** Round to nearest, ties to even, of m / P. *)
Definition rne (m P : Z) : Z :=
  let q := m / P in
  match 2 * (m mod P) ?= P with
  | Lt => q
  | Eq => if Z.even q then q else q + 1
  | Gt => q + 1
  end.

Definition shr_inv (m P : Z) (mrs : shr_record) : Prop :=
  exists R : Z,
    0 <= R < P /\ m = shr_m mrs * P + R /\ 0 <= shr_m mrs /\
    (shr_r mrs = true <-> P <= 2 * R) /\
    (shr_s mrs = true <-> 2 * R <> 0 /\ 2 * R <> P).

Lemma shr_inv_init (m : Z) :
  0 <= m -> shr_inv m 1 (Build_shr_record m false false).
Proof.
  intros Hm. exists 0. cbn. repeat split; try lia; intros; try discriminate; lia.
Qed.

Lemma shr_1_spec (q : Z) (r s : bool) :
  0 <= q ->
  exists (q' : Z) (b : bool),
    q = 2 * q' + (if b then 1 else 0) /\ 0 <= q' /\
    shr_1 (Build_shr_record q r s) = Build_shr_record q' b (orb r s).
Proof.
  intros Hq. destruct q as [|[p|p|]|p]; try lia.
  - exists 0, false. repeat split; lia.
  - exists (Zpos p), true. repeat split; lia.
  - exists (Zpos p), false. repeat split; lia.
  - exists 0, true. repeat split; lia.
Qed.

Lemma shr_inv_step (m P : Z) (mrs : shr_record) :
  1 <= P -> shr_inv m P mrs -> shr_inv m (2 * P) (shr_1 mrs).
Proof.
  intros HP (R & HR & Hm & Hq & Hr & Hs).
  destruct mrs as [q r s]. cbn [shr_m shr_r shr_s] in *.
  assert (Hrs : orb r s = true <-> R <> 0).
  { rewrite orb_true_iff, Hr, Hs. lia. }
  destruct (@shr_1_spec q r s Hq) as (q' & b & Eq & Hq' & ->).
  exists ((if b then P else 0) + R). cbn [shr_m shr_r shr_s].
  rewrite Hrs. subst q.
  destruct b; repeat split; intros; try discriminate; try lia.
Qed.

Lemma shr_inv_iter (m : Z) (n : nat) :
  0 <= m ->
  shr_inv m (2 ^ Z.of_nat n) (Nat.iter n shr_1 (Build_shr_record m false false)).
Proof.
  intros Hm. induction n as [|n IH].
  - apply shr_inv_init, Hm.
  - rewrite Nat2Z.inj_succ, Z.pow_succ_r by lia.
    change (Nat.iter (S n) shr_1 ?x) with (shr_1 (Nat.iter n shr_1 x)).
    apply shr_inv_step; [|exact IH].
    pose proof (Z.pow_pos_nonneg 2 (Z.of_nat n)). lia.
Qed.

Lemma rne_of_inv (m P : Z) (mrs : shr_record) :
  1 <= P -> shr_inv m P mrs ->
  round_nearest_even (shr_m mrs) (loc_of_shr_record mrs) = rne m P.
Proof.
  intros HP (R & HR & Hm & Hq & Hr & Hs).
  assert (Hdiv : m / P = shr_m mrs).
  { symmetry. apply (Z.div_unique m P (shr_m mrs) R); lia. }
  assert (Hmod : m mod P = R).
  { symmetry. apply (Z.mod_unique m P (shr_m mrs) R); lia. }
  unfold rne. rewrite Hdiv, Hmod.
  destruct mrs as [q r s]. cbn [shr_m shr_r shr_s loc_of_shr_record] in *.
  destruct r, s; cbn [round_nearest_even].
  - assert (P <= 2 * R) by (apply Hr; reflexivity).
    assert (2 * R <> P) by (apply Hs; reflexivity).
    destruct (Z.compare_spec (2 * R) P); try lia; reflexivity.
  - assert (P <= 2 * R) by (apply Hr; reflexivity).
    assert (2 * R = P).
    { destruct (Z.eq_dec (2 * R) P) as [E|E]; [exact E|].
      assert (false = true) by (apply Hs; lia). discriminate. }
    destruct (Z.compare_spec (2 * R) P); try lia; reflexivity.
  - assert (2 * R < P).
    { destruct (Z_lt_le_dec (2 * R) P) as [E|E]; [exact E|].
      assert (false = true) by (apply Hr; lia). discriminate. }
    destruct (Z.compare_spec (2 * R) P); try lia; reflexivity.
  - assert (2 * R < P).
    { destruct (Z_lt_le_dec (2 * R) P) as [E|E]; [exact E|].
      assert (false = true) by (apply Hr; lia). discriminate. }
    destruct (Z.compare_spec (2 * R) P); try lia; reflexivity.
Qed.

Lemma shr_m_nonneg (m P : Z) (mrs : shr_record) :
  shr_inv m P mrs -> 0 <= shr_m mrs.
Proof. intros (R & _ & _ & Hq & _). exact Hq. Qed.

(** [shr] by [n > 0] positions, from an exact record. *)
Lemma shr_exact (m e n : Z) :
  0 <= m -> 0 < n ->
  exists mrs : shr_record,
    shr (Build_shr_record m false false) e n = (mrs, e + n) /\
    shr_inv m (2 ^ n) mrs.
Proof.
  intros Hm Hn. destruct n as [|p|p]; try lia.
  cbn [shr]. rewrite iter_pos_nat. eexists. split; [reflexivity|].
  rewrite <- (positive_nat_Z p). apply shr_inv_iter, Hm.
Qed.

(** *** Arithmetic of [rne] *)

Lemma rne_bounds (m P : Z) : m / P <= rne m P <= m / P + 1.
Proof.
  unfold rne. destruct (2 * (m mod P) ?= P); [destruct (Z.even (m / P))| |]; lia.
Qed.

Lemma rne_exact (a P : Z) : 1 <= P -> rne (a * P) P = a.
Proof.
  intros HP. unfold rne. rewrite Z_mod_mult, Z_div_mult by lia.
  destruct (Z.compare_spec (2 * 0) P); try lia; reflexivity.
Qed.

Lemma rne_scale (m P K : Z) :
  1 <= P -> 1 <= K -> rne (m * K) (P * K) = rne m P.
Proof.
  intros HP HK. unfold rne.
  rewrite Z.div_mul_cancel_r, Z.mul_mod_distr_r by lia.
  set (R := m mod P).
  destruct (Z.compare_spec (2 * R) P);
    destruct (Z.compare_spec (2 * (R * K)) (P * K)); try reflexivity; nia.
Qed.

Lemma rne_mono (N1 N2 P : Z) :
  1 <= P -> N1 <= N2 -> rne N1 P <= rne N2 P.
Proof.
  intros HP HN.
  pose proof (Z.div_le_mono N1 N2 P ltac:(lia) HN) as Hq.
  pose proof (Z.div_mod N1 P ltac:(lia)) as E1.
  pose proof (Z.div_mod N2 P ltac:(lia)) as E2.
  pose proof (Z.mod_pos_bound N1 P ltac:(lia)) as B1.
  pose proof (Z.mod_pos_bound N2 P ltac:(lia)) as B2.
  pose proof (rne_bounds N1 P) as R1.
  pose proof (rne_bounds N2 P) as R2.
  destruct (Z.eq_dec (N1 / P) (N2 / P)) as [E|E]; [|lia].
  unfold rne in *. rewrite E in *.
  assert (N1 mod P <= N2 mod P) by lia.
  destruct (Z.compare_spec (2 * (N1 mod P)) P);
    destruct (Z.compare_spec (2 * (N2 mod P)) P);
    destruct (Z.even (N2 / P)); lia.
Qed.

(** *** The binary64 format *)

Definition fexp64 (x : Z) : Z := Z.max (x - 53) (-1074).

Lemma fexp_fexp64 (x : Z) : fexp prec emax x = fexp64 x.
Proof. reflexivity. Qed.

Definition dig (N : Z) : Z := Z.log2 N + 1.

Lemma dig_bounds (N : Z) : 0 < N -> 2 ^ (dig N - 1) <= N < 2 ^ dig N.
Proof.
  intros HN. unfold dig. replace (Z.log2 N + 1 - 1) with (Z.log2 N) by lia.
  apply Z.log2_spec, HN.
Qed.

Lemma Zdigits2_dig (p : positive) : Zdigits2 (Zpos p) = dig (Zpos p).
Proof.
  cbn [Zdigits2]. unfold dig. pose proof (digits2_bounds p) as [Hlo Hhi].
  rewrite (Z.log2_unique (Zpos p) (Zpos (digits2_pos p) - 1)); lia || idtac.
  replace (Z.succ (Zpos (digits2_pos p) - 1)) with (Zpos (digits2_pos p)) by lia.
  split; assumption.
Qed.

Lemma dig_pos (N : Z) : 0 < N -> 1 <= dig N.
Proof. intros HN. unfold dig. pose proof (Z.log2_nonneg N). lia. Qed.

Lemma dig_le (N1 N2 : Z) : 0 < N1 -> N1 <= N2 -> dig N1 <= dig N2.
Proof.
  intros H1 H2. unfold dig. pose proof (Z.log2_le_mono N1 N2 H2). lia.
Qed.

Lemma dig_shift (N k : Z) : 0 < N -> 0 <= k -> dig (N * 2 ^ k) = dig N + k.
Proof.
  intros HN Hk. unfold dig. rewrite Z.log2_mul_pow2 by lia. lia.
Qed.

(** A mantissa of at most 53 bits, or exactly [2^53], at exponent [t]. *)
Definition pack (m t : Z) : spec_float :=
  match m with
  | Zpos p =>
      if m <? 2 ^ 53
      then (if t <=? 971 then S754_finite false p t else S754_infinity false)
      else (if t + 1 <=? 971 then S754_finite false (Pos.div2 p) (t + 1)
            else S754_infinity false)
  | _ => S754_zero false
  end.

Definition finish (mrse : shr_record * Z) : spec_float :=
  let '(mrs, e) := mrse in
  match shr_m mrs with
  | Z0 => S754_zero false
  | Zpos p => if e <=? emax - prec then S754_finite false p e
              else S754_infinity false
  | Zneg _ => S754_nan
  end.

Lemma pow53 : 2 ^ 53 = 9007199254740992.
Proof. reflexivity. Qed.

Lemma shr_noop (mrs : shr_record) (e n : Z) : n <= 0 -> shr mrs e n = (mrs, e).
Proof. intros Hn. destruct n; try reflexivity. lia. Qed.

Lemma second_half (m t : Z) :
  0 <= m <= 2 ^ 53 -> -1074 <= t ->
  finish (shr_fexp prec emax m t loc_Exact) = pack m t.
Proof.
  intros Hm Ht. unfold shr_fexp. rewrite fexp_fexp64.
  cbn [shr_record_of_loc].
  destruct m as [|p|p]; try lia.
  - rewrite shr_noop by (cbn [Zdigits2]; unfold fexp64; lia). reflexivity.
  - rewrite Zdigits2_dig.
    destruct (Z.ltb_spec (Zpos p) (2 ^ 53)) as [Hlt|Hge].
    + assert (Hd : dig (Zpos p) <= 53).
      { pose proof (@dig_bounds (Zpos p) ltac:(lia)) as [Hlo _].
        destruct (Z_le_gt_dec (dig (Zpos p)) 53) as [H|H]; [exact H|].
        assert (2 ^ 53 <= 2 ^ (dig (Zpos p) - 1))
          by (apply Z.pow_le_mono_r; lia). lia. }
      rewrite shr_noop by (unfold fexp64; lia).
      unfold pack. destruct (Z.ltb_spec (Zpos p) (2 ^ 53)); [|lia].
      reflexivity.
    + assert (E : Zpos p = 2 ^ 53) by lia.
      rewrite pow53 in E. injection E as ->.
      change (dig 9007199254740992) with 54.
      replace (fexp64 (54 + t) - t) with 1 by (unfold fexp64; lia).
      cbn. reflexivity.
Qed.

(** *** What [binary_round] computes *)

(** Rounding the positive integer [N], counted in units of [2^e0], to
    binary64. *)
Definition round_at (N e0 : Z) : spec_float :=
  let t := fexp64 (dig N + e0) in
  pack (rne N (2 ^ (t - e0))) t.

Lemma bra_unfold (mx ex : Z) :
  binary_round_aux prec emax false mx ex loc_Exact =
  let '(mrs', e') := shr_fexp prec emax mx ex loc_Exact in
  finish (shr_fexp prec emax
            (round_nearest_even (shr_m mrs') (loc_of_shr_record mrs'))
            e' loc_Exact).
Proof.
  unfold binary_round_aux, finish.
  destruct (shr_fexp prec emax mx ex loc_Exact) as [mrs' e'].
  destruct (shr_fexp prec emax _ e' loc_Exact) as [mrs'' e''].
  reflexivity.
Qed.

Lemma pow2_pos (n : Z) : 0 <= n -> 1 <= 2 ^ n.
Proof. intros Hn. pose proof (Z.pow_pos_nonneg 2 n). lia. Qed.

Lemma rne_le_pow53 (N n : Z) :
  0 < N -> 0 <= n -> dig N <= n + 53 -> 0 <= rne N (2 ^ n) <= 2 ^ 53.
Proof.
  intros HN Hn Hd. pose proof (pow2_pos Hn) as HP.
  pose proof (rne_bounds N (2 ^ n)) as [Hlo Hhi].
  pose proof (dig_bounds HN) as [_ Hlt].
  assert (Hq0 : 0 <= N / 2 ^ n) by (apply Z.div_pos; lia).
  assert (Hq : N / 2 ^ n < 2 ^ 53).
  { apply Z.div_lt_upper_bound; [lia|].
    rewrite <- Z.pow_add_r by lia.
    assert (2 ^ dig N <= 2 ^ (n + 53)) by (apply Z.pow_le_mono_r; lia).
    lia. }
  lia.
Qed.

Lemma bra_char (m : positive) (e : Z) :
  e <= fexp64 (dig (Zpos m) + e) ->
  binary_round_aux prec emax false (Zpos m) e loc_Exact = round_at (Zpos m) e.
Proof.
  intros Ht. rewrite bra_unfold. unfold round_at.
  set (t := fexp64 (dig (Zpos m) + e)) in *.
  assert (Htmin : -1074 <= t) by (unfold t, fexp64; lia).
  assert (Hd : dig (Zpos m) <= (t - e) + 53) by (unfold t, fexp64; lia).
  pose proof (@rne_le_pow53 (Zpos m) (t - e) ltac:(lia) ltac:(lia) Hd) as Hr.
  unfold shr_fexp at 1. rewrite fexp_fexp64, Zdigits2_dig.
  fold t. cbn [shr_record_of_loc].
  destruct (Z.eq_dec t e) as [E|E].
  - rewrite shr_noop by lia. cbn [shr_m loc_of_shr_record round_nearest_even].
    rewrite E, Z.sub_diag in *. change (2 ^ 0) with 1 in *.
    replace (rne (Zpos m) 1) with (Zpos m) in *
      by (symmetry; rewrite <- (Z.mul_1_r (Zpos m)) at 1; apply rne_exact; lia).
    apply second_half; lia.
  - destruct (@shr_exact (Zpos m) e (t - e) ltac:(lia) ltac:(lia))
      as (mrs & -> & Hinv).
    rewrite (rne_of_inv (@pow2_pos (t - e) ltac:(lia)) Hinv).
    replace (e + (t - e)) with t by lia.
    apply second_half; lia.
Qed.

Lemma iter_xO (m d : positive) :
  Zpos (Pos.iter xO m d) = Zpos m * 2 ^ Zpos d.
Proof.
  induction d as [|d IH] using Pos.peano_ind.
  - cbn. lia.
  - rewrite Pos.iter_succ, Pos2Z.inj_xO, IH, Pos2Z.inj_succ, Z.pow_succ_r by lia.
    lia.
Qed.

Lemma round_at_shift (N e0 k : Z) :
  0 < N -> 0 <= k -> e0 <= fexp64 (dig N + e0) ->
  round_at (N * 2 ^ k) (e0 - k) = round_at N e0.
Proof.
  intros HN Hk Ht. unfold round_at.
  rewrite dig_shift by lia.
  replace (dig N + k + (e0 - k)) with (dig N + e0) by lia.
  set (t := fexp64 (dig N + e0)) in *.
  replace (t - (e0 - k)) with ((t - e0) + k) by lia.
  rewrite Z.pow_add_r by lia.
  rewrite rne_scale by (apply pow2_pos; lia). reflexivity.
Qed.

Lemma binary_round_char (m : positive) (e k : Z) :
  0 <= k -> e - k <= fexp64 (dig (Zpos m) + e) ->
  binary_round prec emax false m e = round_at (Zpos m * 2 ^ k) (e - k).
Proof.
  intros Hk Ht. unfold binary_round.
  change (Zpos (digits2_pos m)) with (Zdigits2 (Zpos m)).
  rewrite fexp_fexp64, Zdigits2_dig.
  set (t := fexp64 (dig (Zpos m) + e)) in *.
  unfold shl_align. destruct (t - e) as [|d|d] eqn:Hte.
  - rewrite bra_char by (fold t; lia).
    symmetry. apply round_at_shift; [lia|lia|fold t; lia].
  - rewrite bra_char by (fold t; lia).
    symmetry. apply round_at_shift; [lia|lia|fold t; lia].
  - assert (Hmz : Zpos (Pos.iter xO m d) = Zpos m * 2 ^ (e - t)).
    { rewrite iter_xO. f_equal. f_equal. lia. }
    assert (Hdz : dig (Zpos (Pos.iter xO m d)) + t = dig (Zpos m) + e).
    { rewrite Hmz, dig_shift by lia. lia. }
    rewrite bra_char by (rewrite Hdz; fold t; lia).
    replace (Zpos m * 2 ^ k)
      with (Zpos (Pos.iter xO m d) * 2 ^ (k - (e - t))).
    2:{ rewrite Hmz, <- Z.mul_assoc, <- Z.pow_add_r by lia.
        f_equal. f_equal. lia. }
    replace (e - k) with (t - (k - (e - t))) by lia.
    symmetry. apply round_at_shift; [lia|lia|rewrite Hdz; fold t; lia].
Qed.

(** *** Rounding is monotone *)

Lemma SFleb_finite (p1 p2 : positive) (e1 e2 : Z) :
  e1 < e2 \/ (e1 = e2 /\ Zpos p1 <= Zpos p2) ->
  SFleb (S754_finite false p1 e1) (S754_finite false p2 e2) = true.
Proof.
  intros H. unfold SFleb, SFcompare.
  destruct (Z.compare_spec e1 e2) as [E|E|E].
  - change (Pos.compare_cont Eq p1 p2) with (Pos.compare p1 p2).
    destruct (Pos.compare_spec p1 p2); try reflexivity. lia.
  - reflexivity.
  - lia.
Qed.

Lemma pack_cases (m t : Z) :
  0 <= m <= 2 ^ 53 ->
  (m = 0 /\ pack m t = S754_zero false) \/
  (exists (p : positive) (e' : Z),
     pack m t = S754_finite false p e' /\ e' <= 971 /\
     ((e' = t /\ Zpos p = m /\ m < 2 ^ 53) \/
      (e' = t + 1 /\ Zpos p = 2 ^ 52 /\ m = 2 ^ 53))) \/
  (pack m t = S754_infinity false /\ 0 < m /\
   (971 < t \/ (m = 2 ^ 53 /\ 971 < t + 1))).
Proof.
  intros Hm. destruct m as [|p|p]; try lia.
  - left. split; reflexivity.
  - right. unfold pack.
    destruct (Z.ltb_spec (Zpos p) (2 ^ 53)) as [Hlt|Hge].
    + destruct (Z.leb_spec t 971).
      * left. exists p, t. split; [reflexivity|]. lia.
      * right. split; [reflexivity|]. lia.
    + assert (E : Zpos p = 2 ^ 53) by lia.
      destruct (Z.leb_spec (t + 1) 971).
      * left. exists (Pos.div2 p), (t + 1). split; [reflexivity|].
        split; [lia|]. right. split; [reflexivity|]. split; [|exact E].
        rewrite pow53 in E. injection E as ->. reflexivity.
      * right. split; [reflexivity|]. lia.
Qed.

Lemma pack_nonneg (m t : Z) :
  0 <= m <= 2 ^ 53 -> SFleb (S754_zero false) (pack m t) = true.
Proof.
  intros Hm.
  destruct (@pack_cases m t Hm) as [[_ ->]|[(p & e' & -> & _)|[-> _]]];
    reflexivity.
Qed.

Lemma pack_le (m1 t1 m2 t2 : Z) :
  0 <= m1 <= 2 ^ 53 -> 0 <= m2 <= 2 ^ 53 ->
  (t1 = t2 /\ m1 <= m2) \/ (t1 < t2 /\ 2 ^ 52 <= m2) ->
  SFleb (pack m1 t1) (pack m2 t2) = true.
Proof.
  intros H1 H2 H.
  assert (P52 : 2 ^ 52 = 4503599627370496) by reflexivity.
  rewrite pow53, P52 in *.
  destruct (@pack_cases m1 t1 ltac:(rewrite pow53; exact H1))
    as [[E1 ->]|[(p1 & e1 & -> & L1 & C1)|(-> & Z1 & C1)]];
  destruct (@pack_cases m2 t2 ltac:(rewrite pow53; exact H2))
    as [[E2 ->]|[(p2 & e2 & -> & L2 & C2)|(-> & Z2 & C2)]];
  rewrite ?pow53, ?P52 in *;
  try reflexivity; try (exfalso; lia).
  apply SFleb_finite. lia.
Qed.

Lemma round_at_mono (N1 N2 e0 : Z) :
  0 < N1 -> N1 <= N2 -> e0 <= -1074 ->
  SFleb (round_at N1 e0) (round_at N2 e0) = true.
Proof.
  intros H1 H12 He. unfold round_at.
  set (t1 := fexp64 (dig N1 + e0)). set (t2 := fexp64 (dig N2 + e0)).
  pose proof (dig_le H1 H12) as Hd.
  assert (Ht : t1 <= t2) by (unfold t1, t2, fexp64; lia).
  assert (Hn1 : 0 <= t1 - e0) by (unfold t1, fexp64; lia).
  assert (Hn2 : 0 <= t2 - e0) by (unfold t2, fexp64; lia).
  assert (Hb1 : 0 <= rne N1 (2 ^ (t1 - e0)) <= 2 ^ 53).
  { apply rne_le_pow53; try lia. unfold t1, fexp64. lia. }
  assert (Hb2 : 0 <= rne N2 (2 ^ (t2 - e0)) <= 2 ^ 53).
  { apply rne_le_pow53; try lia. unfold t2, fexp64. lia. }
  apply pack_le; try assumption.
  destruct (Z.eq_dec t1 t2) as [E|E].
  - left. split; [exact E|]. rewrite E.
    apply rne_mono; [apply pow2_pos; lia|exact H12].
  - right. split; [lia|].
    assert (En : t2 - e0 = dig N2 - 53) by (unfold t1, t2, fexp64 in *; lia).
    pose proof (rne_bounds N2 (2 ^ (t2 - e0))) as [Hlo _].
    assert (2 ^ 52 <= N2 / 2 ^ (t2 - e0)); [|lia].
    apply Z.div_le_lower_bound; [pose proof (@pow2_pos (t2 - e0) Hn2); lia|].
    rewrite <- Z.pow_add_r by lia.
    pose proof (@dig_bounds N2 ltac:(lia)) as [Hlo2 _].
    replace (t2 - e0 + 52) with (dig N2 - 1) by lia. exact Hlo2.
Qed.

Lemma round_at_nonneg (N e0 : Z) :
  0 < N -> e0 <= -1074 -> SFleb (S754_zero false) (round_at N e0) = true.
Proof.
  intros HN He. unfold round_at. apply pack_nonneg.
  apply rne_le_pow53; unfold fexp64; lia.
Qed.

(** Rounding preserves the order of the exact values: [m1 * 2^e1 <=
    m2 * 2^e2], compared in units of [2^e0]. *)
Lemma binary_round_mono (m1 m2 : positive) (e1 e2 e0 : Z) :
  e0 <= e1 -> e0 <= e2 -> e0 <= -1074 ->
  Zpos m1 * 2 ^ (e1 - e0) <= Zpos m2 * 2 ^ (e2 - e0) ->
  SFleb (binary_round prec emax false m1 e1)
        (binary_round prec emax false m2 e2) = true.
Proof.
  intros H1 H2 H0 Hle.
  rewrite (@binary_round_char m1 e1 (e1 - e0)) by (unfold fexp64; lia).
  rewrite (@binary_round_char m2 e2 (e2 - e0)) by (unfold fexp64; lia).
  replace (e1 - (e1 - e0)) with e0 by lia.
  replace (e2 - (e2 - e0)) with e0 by lia.
  apply round_at_mono; try assumption.
  pose proof (@pow2_pos (e1 - e0) ltac:(lia)). nia.
Qed.

Lemma binary_round_nonneg (m : positive) (e : Z) :
  SFleb (S754_zero false) (binary_round prec emax false m e) = true.
Proof.
  set (e0 := Z.min e (-1074)).
  rewrite (@binary_round_char m e (e - e0)) by (unfold fexp64; lia).
  apply round_at_nonneg; [|lia].
  pose proof (@pow2_pos (e - e0) ltac:(lia)). nia.
Qed.

(** *** Non-negative floats and their order *)

Definition nonneg (s : spec_float) : Prop := SFleb (S754_zero false) s = true.

Lemma nonneg_cases (s : spec_float) :
  nonneg s ->
  (exists b, s = S754_zero b) \/ s = S754_infinity false \/
  (exists m e, s = S754_finite false m e).
Proof.
  unfold nonneg. destruct s as [b|b| |b m e]; try destruct b; cbn;
    try discriminate; eauto.
Qed.

Lemma zero_le_nonneg (b : bool) (s : spec_float) :
  nonneg s -> SFleb (S754_zero b) s = true.
Proof. intros Hs. exact Hs. Qed.

Lemma nonneg_le_infinity (s : spec_float) :
  nonneg s -> SFleb s (S754_infinity false) = true.
Proof.
  intros Hs.
  destruct (nonneg_cases Hs) as [[b ->]|[->|(m & e & ->)]]; reflexivity.
Qed.

Lemma bounded_canonical (m : positive) (e : Z) :
  bounded prec emax m e = true ->
  e = fexp64 (dig (Zpos m) + e) /\ e <= 971.
Proof.
  unfold bounded, canonical_mantissa. rewrite andb_true_iff.
  change (Zpos (digits2_pos m)) with (Zdigits2 (Zpos m)).
  rewrite fexp_fexp64, Zdigits2_dig, Z.eqb_eq, Z.leb_le.
  change (emax - prec) with 971. lia.
Qed.

Lemma SFleb_finite_inv (p1 p2 : positive) (e1 e2 : Z) :
  SFleb (S754_finite false p1 e1) (S754_finite false p2 e2) = true ->
  e1 < e2 \/ (e1 = e2 /\ Zpos p1 <= Zpos p2).
Proof.
  unfold SFleb, SFcompare.
  destruct (Z.compare_spec e1 e2) as [E|E|E]; intros H.
  - right. split; [exact E|].
    change (Pos.compare_cont Eq p1 p2) with (Pos.compare p1 p2) in H.
    destruct (Pos.compare_spec p1 p2); try discriminate; lia.
  - left. exact E.
  - discriminate.
Qed.

(** The order of two canonical non-negative floats is the order of their
    values, counted in units of [2^e0]. *)
Lemma finite_le_value (m1 m2 : positive) (e1 e2 e0 : Z) :
  bounded prec emax m1 e1 = true -> bounded prec emax m2 e2 = true ->
  SFleb (S754_finite false m1 e1) (S754_finite false m2 e2) = true ->
  e0 <= e1 -> e0 <= e2 ->
  Zpos m1 * 2 ^ (e1 - e0) <= Zpos m2 * 2 ^ (e2 - e0).
Proof.
  intros B1 B2 Hle H1 H2.
  apply bounded_canonical in B1, B2. destruct B1 as [C1 _], B2 as [C2 _].
  pose proof (@pow2_pos (e1 - e0) ltac:(lia)) as P1.
  destruct (SFleb_finite_inv _ _ _ _ Hle) as [Hlt|[-> Hm]].
  - pose proof (@dig_bounds (Zpos m1) ltac:(lia)) as [_ U1].
    pose proof (@dig_bounds (Zpos m2) ltac:(lia)) as [L2 _].
    assert (D1 : dig (Zpos m1) <= 53) by (unfold fexp64 in C1; lia).
    assert (D2 : dig (Zpos m2) = 53) by (unfold fexp64 in C1, C2; lia).
    rewrite D2 in L2. change (2 ^ (53 - 1)) with 4503599627370496 in L2.
    assert (U : Zpos m1 < 2 ^ 53).
    { assert (2 ^ dig (Zpos m1) <= 2 ^ 53) by (apply Z.pow_le_mono_r; lia).
      lia. }
    rewrite pow53 in U.
    replace (e2 - e0) with ((e2 - e1) + (e1 - e0)) by lia.
    rewrite Z.pow_add_r by lia.
    assert (P2 : 2 ^ 1 <= 2 ^ (e2 - e1)) by (apply Z.pow_le_mono_r; lia).
    change (2 ^ 1) with 2 in P2.
    rewrite Z.mul_assoc. apply Z.mul_le_mono_nonneg_r; [lia|].
    assert (Zpos m2 * 2 <= Zpos m2 * 2 ^ (e2 - e1))
      by (apply Z.mul_le_mono_nonneg_l; lia).
    lia.
  - apply Z.mul_le_mono_nonneg_r; lia.
Qed.

Lemma round_at_nonneg_gen (N e : Z) :
  0 < N -> e <= fexp64 (dig N + e) -> nonneg (round_at N e).
Proof.
  intros HN He. unfold nonneg, round_at. apply pack_nonneg.
  apply rne_le_pow53; unfold fexp64 in *; lia.
Qed.

Lemma round_at_le (N1 N2 e1 e2 e0 : Z) :
  0 < N1 -> 0 < N2 ->
  e1 <= fexp64 (dig N1 + e1) -> e2 <= fexp64 (dig N2 + e2) ->
  e0 <= e1 -> e0 <= e2 -> e0 <= -1074 ->
  N1 * 2 ^ (e1 - e0) <= N2 * 2 ^ (e2 - e0) ->
  SFleb (round_at N1 e1) (round_at N2 e2) = true.
Proof.
  intros P1 P2 T1 T2 H1 H2 H0 Hle.
  rewrite <- (@round_at_shift N1 e1 (e1 - e0)) by lia.
  rewrite <- (@round_at_shift N2 e2 (e2 - e0)) by lia.
  replace (e1 - (e1 - e0)) with e0 by lia.
  replace (e2 - (e2 - e0)) with e0 by lia.
  apply round_at_mono; try assumption.
  pose proof (@pow2_pos (e1 - e0) ltac:(lia)). nia.
Qed.

(** *** Multiplying by a positive constant *)

Section Scale.

Variables (mc : positive) (ec : Z).
Hypothesis Hmc : 2 ^ 52 <= Zpos mc.

Lemma scale_digits (m : positive) : 53 <= dig (Zpos (mc * m)).
Proof.
  change 53 with (dig (2 ^ 52)). apply dig_le; [reflexivity|].
  rewrite Pos2Z.inj_mul. nia.
Qed.

Lemma SFmul_scale_finite (m : positive) (e : Z) :
  SFmul prec emax (S754_finite false mc ec) (S754_finite false m e) =
  round_at (Zpos (mc * m)) (ec + e).
Proof.
  change (SFmul prec emax (S754_finite false mc ec) (S754_finite false m e))
    with (binary_round_aux prec emax false (Zpos (mc * m)) (ec + e) loc_Exact).
  apply bra_char. pose proof (scale_digits m). unfold fexp64. lia.
Qed.

Lemma SFmul_scale_nonneg (m : positive) (e : Z) :
  nonneg (SFmul prec emax (S754_finite false mc ec) (S754_finite false m e)).
Proof.
  rewrite SFmul_scale_finite. apply round_at_nonneg_gen; [lia|].
  pose proof (scale_digits m). unfold fexp64. lia.
Qed.

(** The product by the constant keeps the order of non-negative floats. *)
Lemma SFmul_scale_mono (s1 s2 : spec_float) :
  valid_binary s1 = true -> valid_binary s2 = true ->
  nonneg s1 -> SFleb s1 s2 = true ->
  SFleb (SFmul prec emax (S754_finite false mc ec) s1)
        (SFmul prec emax (S754_finite false mc ec) s2) = true.
Proof.
  intros V1 V2 N1 Hle.
  destruct (nonneg_cases N1) as [[b1 ->]|[->|(m1 & e1 & ->)]];
    destruct s2 as [b2|b2| |b2 m2 e2]; try destruct b2;
    try discriminate Hle; try reflexivity.
  - apply zero_le_nonneg, SFmul_scale_nonneg.
  - apply nonneg_le_infinity, SFmul_scale_nonneg.
  - rewrite !SFmul_scale_finite.
    pose proof (scale_digits m1). pose proof (scale_digits m2).
    set (e0 := Z.min (Z.min (ec + e1) (ec + e2)) (-1074)).
    apply (@round_at_le _ _ _ _ e0); try lia;
      try (unfold fexp64; lia).
    cbn [valid_binary] in V1, V2.
    pose proof (@finite_le_value m1 m2 e1 e2 (e0 - ec) V1 V2 Hle
                  ltac:(lia) ltac:(lia)) as Hv.
    replace (ec + e1 - e0) with (e1 - (e0 - ec)) by lia.
    replace (ec + e2 - e0) with (e2 - (e0 - ec)) by lia.
    rewrite !Pos2Z.inj_mul, <- !Z.mul_assoc.
    apply Z.mul_le_mono_nonneg_l; [lia|exact Hv].
Qed.

End Scale.

(** *** Adding a positive constant *)

Lemma shl_align_value (m : positive) (e ez : Z) :
  ez <= e -> Zpos (fst (shl_align m e ez)) = Zpos m * 2 ^ (e - ez).
Proof.
  intros He. unfold shl_align. destruct (ez - e) as [|d|d] eqn:Hd;
    cbn [fst]; try lia.
  - replace (e - ez) with 0 by lia. cbn. lia.
  - rewrite iter_xO. f_equal. f_equal. lia.
Qed.

Lemma scaled_sum (a b e ed ez e0 : Z) :
  ez <= e -> ez <= ed -> e0 <= ez ->
  (a * 2 ^ (e - ez) + b * 2 ^ (ed - ez)) * 2 ^ (ez - e0) =
  a * 2 ^ (e - e0) + b * 2 ^ (ed - e0).
Proof.
  intros H1 H2 H0.
  replace (e - e0) with ((e - ez) + (ez - e0)) by lia.
  replace (ed - e0) with ((ed - ez) + (ez - e0)) by lia.
  rewrite !Z.pow_add_r by lia. ring.
Qed.

Lemma SFleb_finite_refl (m : positive) (e : Z) :
  SFleb (S754_finite false m e) (S754_finite false m e) = true.
Proof. apply SFleb_finite. right. split; [reflexivity|lia]. Qed.

Section Shift.

Variables (md : positive) (ed : Z).
Hypothesis Hd : binary_round prec emax false md ed = S754_finite false md ed.

(** The sum of a positive float and the constant, as an integer counted in
    units of [2^(Z.min e ed)]. *)
Definition aligned_sum (m : positive) (e : Z) : positive :=
  (fst (shl_align m e (Z.min e ed)) + fst (shl_align md ed (Z.min e ed)))%positive.

Lemma aligned_sum_value (m : positive) (e e0 : Z) :
  e0 <= Z.min e ed ->
  Zpos (aligned_sum m e) * 2 ^ (Z.min e ed - e0) =
  Zpos m * 2 ^ (e - e0) + Zpos md * 2 ^ (ed - e0).
Proof.
  intros H0. unfold aligned_sum.
  rewrite Pos2Z.inj_add, !shl_align_value by lia.
  apply scaled_sum; lia.
Qed.

Lemma SFadd_shift_finite (m : positive) (e : Z) :
  SFadd prec emax (S754_finite false m e) (S754_finite false md ed) =
  binary_round prec emax false (aligned_sum m e) (Z.min e ed).
Proof. reflexivity. Qed.

(** Adding the constant keeps the order of non-negative floats. *)
Lemma SFadd_shift_mono (y1 y2 : spec_float) :
  valid_binary y1 = true -> valid_binary y2 = true ->
  nonneg y1 -> SFleb y1 y2 = true ->
  SFleb (SFadd prec emax y1 (S754_finite false md ed))
        (SFadd prec emax y2 (S754_finite false md ed)) = true.
Proof.
  intros V1 V2 N1 Hle.
  destruct (nonneg_cases N1) as [[b1 ->]|[->|(m1 & e1 & ->)]];
    destruct y2 as [b2|b2| |b2 m2 e2]; try destruct b2;
    try discriminate Hle; try reflexivity.
  - apply SFleb_finite_refl.
  - apply SFleb_finite_refl.
  - rewrite SFadd_shift_finite.
    change (SFadd prec emax (S754_zero b1) (S754_finite false md ed))
      with (S754_finite false md ed).
    rewrite <- Hd at 1.
    set (e0 := Z.min (Z.min e2 ed) (-1074)).
    apply (@binary_round_mono _ _ _ _ e0); try lia.
    rewrite aligned_sum_value by lia.
    pose proof (@pow2_pos (e2 - e0) ltac:(lia)). nia.
  - rewrite SFadd_shift_finite.
    apply nonneg_le_infinity. apply binary_round_nonneg.
  - rewrite !SFadd_shift_finite.
    set (e0 := Z.min (Z.min (Z.min e1 e2) ed) (-1074)).
    apply (@binary_round_mono _ _ _ _ e0); try lia.
    rewrite !aligned_sum_value by lia.
    cbn [valid_binary] in V1, V2.
    pose proof (@finite_le_value m1 m2 e1 e2 e0 V1 V2 Hle
                  ltac:(lia) ltac:(lia)) as Hv.
    lia.
Qed.

End Shift.

(** *** The sign of a quotient *)

Lemma shr_1_nonneg (mrs : shr_record) :
  0 <= shr_m mrs -> 0 <= shr_m (shr_1 mrs).
Proof.
  destruct mrs as [q r s]. cbn [shr_m]. intros Hq.
  destruct (@shr_1_spec q r s Hq) as (q' & b & _ & Hq' & ->). exact Hq'.
Qed.

Lemma shr_nonneg (mrs : shr_record) (e n : Z) :
  0 <= shr_m mrs -> 0 <= shr_m (fst (shr mrs e n)).
Proof.
  intros Hq. destruct n as [|p|p]; cbn [shr fst]; try exact Hq.
  rewrite iter_pos_nat. induction (Pos.to_nat p) as [|k IH]; [exact Hq|].
  change (Nat.iter (S k) shr_1 mrs) with (shr_1 (Nat.iter k shr_1 mrs)).
  apply shr_1_nonneg, IH.
Qed.

Lemma shr_record_of_loc_m (m : Z) (l : location) :
  shr_m (shr_record_of_loc m l) = m.
Proof. destruct l as [|[]]; reflexivity. Qed.

Lemma shr_fexp_nonneg (m e : Z) (l : location) :
  0 <= m -> 0 <= shr_m (fst (shr_fexp prec emax m e l)).
Proof.
  intros Hm. unfold shr_fexp. apply shr_nonneg.
  rewrite shr_record_of_loc_m. exact Hm.
Qed.

Lemma round_nearest_even_nonneg (m : Z) (l : location) :
  0 <= m -> 0 <= round_nearest_even m l.
Proof.
  intros Hm. destruct l as [|[]]; cbn [round_nearest_even];
    try destruct (Z.even m); lia.
Qed.

(** Rounding a non-negative mantissa, whatever was lost below it, gives a
    float that is not negative and not a NaN. *)
Lemma bra_nonneg (mx ex : Z) (lx : location) :
  0 <= mx -> nonneg (binary_round_aux prec emax false mx ex lx).
Proof.
  intros Hm. unfold binary_round_aux.
  pose proof (@shr_fexp_nonneg mx ex lx Hm) as H1.
  destruct (shr_fexp prec emax mx ex lx) as [mrs' e']. cbn [fst] in H1.
  pose proof (@shr_fexp_nonneg _ e' loc_Exact
                (@round_nearest_even_nonneg _ (loc_of_shr_record mrs') H1))
    as H2.
  destruct (shr_fexp prec emax
              (round_nearest_even (shr_m mrs') (loc_of_shr_record mrs'))
              e' loc_Exact) as [mrs'' e''].
  cbn [fst] in H2.
  destruct (shr_m mrs'') as [|q|q]; try lia; [reflexivity|].
  destruct (e'' <=? emax - prec); reflexivity.
Qed.

Lemma SFdiv_core_nonneg (m1 m2 : positive) (e1 e2 : Z) :
  0 <= fst (fst (SFdiv_core_binary prec emax (Zpos m1) e1 (Zpos m2) e2)).
Proof.
  unfold SFdiv_core_binary. cbv zeta.
  match goal with
  | |- context [Z.div_eucl ?a ?b] =>
      assert (Ha : 0 <= a);
      [|pose proof (Z.div_pos a b Ha) as Hd; unfold Z.div in Hd;
        destruct (Z.div_eucl a b) as [q r]]
  end.
  - match goal with
    | |- 0 <= match ?s with _ => _ end =>
        destruct s; try lia; apply Z.shiftl_nonneg; lia
    end.
  - cbn [fst]. apply Hd. lia.
Qed.

(** A float that is not negative, divided by a positive float, is not
    negative (and not a NaN), unless both are infinite. *)
Lemma SFdiv_nonneg (x y : spec_float) :
  nonneg x -> SFltb (S754_zero false) y = true ->
  (x = S754_infinity false -> y <> S754_infinity false) ->
  nonneg (SFdiv prec emax x y).
Proof.
  intros Hx Hy Hinf.
  destruct (nonneg_cases Hx) as [[b ->]|[->|(m1 & e1 & ->)]];
    destruct y as [b2|b2| |b2 m2 e2]; try destruct b2;
    try discriminate Hy.
  - destruct b; reflexivity.
  - destruct b; reflexivity.
  - exfalso. apply Hinf; reflexivity.
  - reflexivity.
  - reflexivity.
  - unfold SFdiv. pose proof (SFdiv_core_nonneg m1 m2 e1 e2) as Hq.
    destruct (SFdiv_core_binary prec emax (Zpos m1) e1 (Zpos m2) e2)
      as [[mz ez] lz].
    cbn [fst] in Hq. apply bra_nonneg, Hq.
Qed.

(** *** The sign of a difference *)

Lemma binary_round_opp (m : positive) (e : Z) :
  binary_round prec emax true m e = SFopp (binary_round prec emax false m e).
Proof.
  unfold binary_round.
  destruct (shl_align m e (fexp prec emax (Zpos (digits2_pos m) + e)))
    as [mz ez].
  unfold binary_round_aux.
  destruct (shr_fexp prec emax (Zpos mz) ez loc_Exact) as [mrs' e'].
  destruct (shr_fexp prec emax
              (round_nearest_even (shr_m mrs') (loc_of_shr_record mrs'))
              e' loc_Exact) as [mrs'' e''].
  destruct (shr_m mrs''); try reflexivity.
  destruct (e'' <=? emax - prec); reflexivity.
Qed.

Lemma pack_positive (m t : Z) :
  1 <= m <= 2 ^ 53 -> SFcompare (pack m t) (S754_zero false) = Some Gt.
Proof.
  intros Hm.
  destruct (@pack_cases m t ltac:(lia))
    as [[E _]|[(p & e' & -> & _)|[-> _]]]; [lia|reflexivity|reflexivity].
Qed.

(** At an exponent that is not below the smallest one, a positive integer
    does not round to zero: there is no underflow to zero in a sum or a
    difference. *)
Lemma binary_round_positive (m : positive) (e : Z) :
  -1074 <= e ->
  SFcompare (binary_round prec emax false m e) (S754_zero false) = Some Gt.
Proof.
  intros He.
  pose proof (@dig_pos (Zpos m) ltac:(lia)) as Hd.
  destruct (Z_le_gt_dec (fexp64 (dig (Zpos m) + e)) e) as [Hte|Hte].
  - rewrite (@binary_round_char m e (e - fexp64 (dig (Zpos m) + e))) by lia.
    unfold round_at. rewrite dig_shift by lia.
    replace (dig (Zpos m) + (e - fexp64 (dig (Zpos m) + e)) +
             (e - (e - fexp64 (dig (Zpos m) + e))))
      with (dig (Zpos m) + e) by lia.
    replace (fexp64 (dig (Zpos m) + e) -
             (e - (e - fexp64 (dig (Zpos m) + e)))) with 0 by lia.
    change (2 ^ 0) with 1.
    set (N := Zpos m * 2 ^ (e - fexp64 (dig (Zpos m) + e))).
    assert (HN : 1 <= N).
    { pose proof (@pow2_pos (e - fexp64 (dig (Zpos m) + e)) ltac:(lia)).
      unfold N. nia. }
    assert (E : rne N 1 = N).
    { rewrite <- (Z.mul_1_r N) at 1. apply rne_exact. lia. }
    rewrite E. apply pack_positive. split; [exact HN|].
    assert (Hdn : dig N <= 53).
    { unfold N. rewrite dig_shift by lia. unfold fexp64 in *. lia. }
    pose proof (@dig_bounds N ltac:(lia)) as [_ Hu].
    assert (2 ^ dig N <= 2 ^ 53) by (apply Z.pow_le_mono_r; lia). lia.
  - rewrite (@binary_round_char m e 0) by lia.
    change (2 ^ 0) with 1. rewrite Z.mul_1_r, Z.sub_0_r.
    unfold round_at. set (t := fexp64 (dig (Zpos m) + e)) in *.
    assert (Et : t - e = dig (Zpos m) - 53) by (unfold t, fexp64 in *; lia).
    pose proof (@rne_le_pow53 (Zpos m) (t - e)
                  ltac:(lia) ltac:(lia) ltac:(lia)) as [_ Hu].
    apply pack_positive. split; [|exact Hu].
    pose proof (rne_bounds (Zpos m) (2 ^ (t - e))) as [Hlo _].
    assert (2 ^ 52 <= Zpos m / 2 ^ (t - e)).
    { apply Z.div_le_lower_bound;
        [pose proof (@pow2_pos (t - e) ltac:(lia)); lia|].
      rewrite <- Z.pow_add_r by lia.
      pose proof (@dig_bounds (Zpos m) ltac:(lia)) as [Hl _].
      replace (t - e + 52) with (dig (Zpos m) - 1) by lia. exact Hl. }
    assert (0 < 2 ^ 52) by reflexivity. lia.
Qed.

Lemma normalize_compare (D ez : Z) :
  -1074 <= ez ->
  SFcompare (binary_normalize prec emax D ez false) (S754_zero false) =
  Some (D ?= 0).
Proof.
  intros He. destruct D as [|d|d]; cbn [binary_normalize].
  - reflexivity.
  - apply binary_round_positive, He.
  - rewrite binary_round_opp.
    pose proof (@binary_round_positive d ez He) as H.
    destruct (binary_round prec emax false d ez) as [b|b| |b m e];
      try destruct b; try discriminate H; reflexivity.
Qed.

Lemma finite_lt_exp (m1 m2 : positive) (e1 e2 e0 : Z) :
  bounded prec emax m1 e1 = true -> bounded prec emax m2 e2 = true ->
  e0 <= e1 -> e1 < e2 ->
  Zpos m1 * 2 ^ (e1 - e0) < Zpos m2 * 2 ^ (e2 - e0).
Proof.
  intros B1 B2 H1 Hlt.
  apply bounded_canonical in B1, B2. destruct B1 as [C1 _], B2 as [C2 _].
  pose proof (@pow2_pos (e1 - e0) ltac:(lia)) as P1.
  pose proof (@dig_bounds (Zpos m1) ltac:(lia)) as [_ U1].
  pose proof (@dig_bounds (Zpos m2) ltac:(lia)) as [L2 _].
  assert (D1 : dig (Zpos m1) <= 53) by (unfold fexp64 in C1; lia).
  assert (D2 : dig (Zpos m2) = 53) by (unfold fexp64 in C1, C2; lia).
  rewrite D2 in L2. change (2 ^ (53 - 1)) with 4503599627370496 in L2.
  assert (U : Zpos m1 < 2 ^ 53).
  { assert (2 ^ dig (Zpos m1) <= 2 ^ 53) by (apply Z.pow_le_mono_r; lia).
    lia. }
  rewrite pow53 in U.
  replace (e2 - e0) with ((e2 - e1) + (e1 - e0)) by lia.
  rewrite Z.pow_add_r by lia.
  assert (P2 : 2 ^ 1 <= 2 ^ (e2 - e1)) by (apply Z.pow_le_mono_r; lia).
  change (2 ^ 1) with 2 in P2.
  rewrite Z.mul_assoc. apply Z.mul_lt_mono_pos_r; [lia|].
  assert (Zpos m2 * 2 <= Zpos m2 * 2 ^ (e2 - e1))
    by (apply Z.mul_le_mono_nonneg_l; lia).
  lia.
Qed.

(** The comparison of two canonical positive floats is the comparison of
    their values. *)
Lemma finite_compare_value (m1 m2 : positive) (e1 e2 e0 : Z) :
  bounded prec emax m1 e1 = true -> bounded prec emax m2 e2 = true ->
  e0 <= e1 -> e0 <= e2 ->
  (Zpos m1 * 2 ^ (e1 - e0) ?= Zpos m2 * 2 ^ (e2 - e0)) =
  match e1 ?= e2 with
  | Lt => Lt
  | Gt => Gt
  | Eq => Pos.compare_cont Eq m1 m2
  end.
Proof.
  intros B1 B2 H1 H2.
  destruct (Z.compare_spec e1 e2) as [E|E|E].
  - subst e2. pose proof (@pow2_pos (e1 - e0) ltac:(lia)) as P1.
    change (Pos.compare_cont Eq m1 m2) with (Zpos m1 ?= Zpos m2).
    destruct (Z.compare_spec (Zpos m1) (Zpos m2)) as [C|C|C].
    + apply Z.compare_eq_iff. rewrite C. reflexivity.
    + apply Z.compare_lt_iff. apply Z.mul_lt_mono_pos_r; lia.
    + apply Z.compare_gt_iff. apply Z.mul_lt_mono_pos_r; lia.
  - apply Z.compare_lt_iff. apply finite_lt_exp; assumption.
  - apply Z.compare_gt_iff. apply finite_lt_exp; assumption.
Qed.

Lemma SFsub_finite_compare (sx sy : bool) (mx my : positive) (ex ey : Z) :
  bounded prec emax mx ex = true -> bounded prec emax my ey = true ->
  SFcompare (SFsub prec emax (S754_finite sx mx ex) (S754_finite sy my ey))
            (S754_zero false) =
  SFcompare (S754_finite sx mx ex) (S754_finite sy my ey).
Proof.
  intros Bx By.
  pose proof (@bounded_canonical mx ex Bx) as [Cx _].
  pose proof (@bounded_canonical my ey By) as [Cy _].
  assert (Hx : -1074 <= ex) by (unfold fexp64 in Cx; lia).
  assert (Hy : -1074 <= ey) by (unfold fexp64 in Cy; lia).
  unfold SFsub. rewrite normalize_compare by lia.
  rewrite !shl_align_value by lia.
  pose proof (@finite_compare_value mx my ex ey (Z.min ex ey) Bx By
                ltac:(lia) ltac:(lia)) as Hc.
  pose proof (@pow2_pos (ex - Z.min ex ey) ltac:(lia)) as Px.
  pose proof (@pow2_pos (ey - Z.min ex ey) ltac:(lia)) as Py.
  set (X := Zpos mx * 2 ^ (ex - Z.min ex ey)) in *.
  set (Y := Zpos my * 2 ^ (ey - Z.min ex ey)) in *.
  assert (HX : 0 < X) by (unfold X; nia).
  assert (HY : 0 < Y) by (unfold Y; nia).
  destruct sx, sy; cbn [cond_Zopp SFcompare]; f_equal.
  - replace (- X - - Y) with (Y - X) by lia.
    rewrite <- Z.compare_sub, (Z.compare_antisym X Y), Hc.
    destruct (ex ?= ey); reflexivity.
  - apply Z.compare_lt_iff. lia.
  - apply Z.compare_gt_iff. lia.
  - rewrite <- Z.compare_sub. exact Hc.
Qed.

(** The difference of two floats compares with zero as the two floats
    compare with each other, unless they are the same infinity: near zero
    the difference of two different floats is a float, not zero. *)
Lemma SFsub_compare (x y : spec_float) :
  valid_binary x = true -> valid_binary y = true ->
  (forall s : bool, x = S754_infinity s -> y <> S754_infinity s) ->
  SFcompare (SFsub prec emax x y) (S754_zero false) = SFcompare x y.
Proof.
  intros Vx Vy Hinf.
  destruct x as [sx|sx| |sx mx ex], y as [sy|sy| |sy my ey];
    try (apply SFsub_finite_compare; assumption);
    try reflexivity;
    try (destruct sx; reflexivity);
    try (destruct sy; reflexivity);
    try (destruct sx, sy; reflexivity).
  destruct sx, sy; try reflexivity;
    exfalso; exact (Hinf _ eq_refl eq_refl).
Qed.

Lemma SFcompare_antisym (x y : spec_float) :
  SFcompare y x = option_map CompOpp (SFcompare x y).
Proof.
  destruct x as [sx|sx| |sx mx ex], y as [sy|sy| |sy my ey];
    try destruct sx; try destruct sy; try reflexivity;
    cbn [SFcompare option_map]; f_equal;
    rewrite (Z.compare_antisym ex ey);
    assert (A : Pos.compare_cont Eq my mx =
                CompOpp (Pos.compare_cont Eq mx my))
      by (symmetry; exact (Pos.compare_cont_antisym mx my Eq));
    rewrite A; destruct (ex ?= ey); cbn [CompOpp]; try reflexivity;
    destruct (Pos.compare_cont Eq mx my); reflexivity.
Qed.

(** *** The sign of a quotient by a negative float *)

Lemma bra_opp (m e : Z) (l : location) :
  binary_round_aux prec emax true m e l =
  SFopp (binary_round_aux prec emax false m e l).
Proof.
  unfold binary_round_aux.
  destruct (shr_fexp prec emax m e l) as [mrs' e'].
  destruct (shr_fexp prec emax
              (round_nearest_even (shr_m mrs') (loc_of_shr_record mrs'))
              e' loc_Exact) as [mrs'' e''].
  destruct (shr_m mrs''); try reflexivity.
  destruct (e'' <=? emax - prec); reflexivity.
Qed.

Lemma opp_nonneg_le_zero (s : spec_float) :
  nonneg s -> SFleb (SFopp s) (S754_zero false) = true.
Proof.
  intros Hs.
  destruct (nonneg_cases Hs) as [[b ->]|[->|(m & e & ->)]]; reflexivity.
Qed.

(** A float that is not negative, divided by a negative float, is not
    positive (and not a NaN), unless both are infinite. *)
Lemma SFdiv_nonpos (x y : spec_float) :
  nonneg x -> SFltb y (S754_zero false) = true ->
  (x = S754_infinity false -> y <> S754_infinity true) ->
  SFleb (SFdiv prec emax x y) (S754_zero false) = true.
Proof.
  intros Hx Hy Hinf.
  destruct (nonneg_cases Hx) as [[b ->]|[->|(m1 & e1 & ->)]];
    destruct y as [b2|b2| |b2 m2 e2]; try destruct b2;
    try discriminate Hy.
  - destruct b; reflexivity.
  - destruct b; reflexivity.
  - exfalso. apply Hinf; reflexivity.
  - reflexivity.
  - reflexivity.
  - unfold SFdiv. pose proof (SFdiv_core_nonneg m1 m2 e1 e2) as Hq.
    destruct (SFdiv_core_binary prec emax (Zpos m1) e1 (Zpos m2) e2)
      as [[mz ez] lz].
    cbn [fst] in Hq. cbn [xorb]. rewrite bra_opp.
    apply opp_nonneg_le_zero, bra_nonneg, Hq.
Qed.

(** *** Differences as rounded integers *)

(** The value of a finite float, counted in units of [2^e0]. *)
Definition val (e0 : Z) (s : spec_float) : Z :=
  match s with
  | S754_finite sg m e => cond_Zopp sg (Zpos m * 2 ^ (e - e0))
  | _ => 0
  end.

Definition finite_or_zero (s : spec_float) : Prop :=
  match s with
  | S754_zero _ | S754_finite _ _ _ => True
  | _ => False
  end.

Lemma bounded_emin (m : positive) (e : Z) :
  bounded prec emax m e = true -> -1074 <= e.
Proof.
  intros B. destruct (@bounded_canonical m e B) as [C _].
  unfold fexp64 in C. lia.
Qed.

Lemma val_finite_pos (m : positive) (e e0 : Z) :
  e0 <= e -> 0 < Zpos m * 2 ^ (e - e0).
Proof.
  intros He. pose proof (@pow2_pos (e - e0) ltac:(lia)). nia.
Qed.

(** Two finite floats compare as their values do. *)
Lemma SFcompare_val (e0 : Z) (x y : spec_float) :
  valid_binary x = true -> valid_binary y = true ->
  finite_or_zero x -> finite_or_zero y -> e0 <= -1074 ->
  SFcompare x y = Some (val e0 x ?= val e0 y).
Proof.
  intros Vx Vy Fx Fy He.
  destruct x as [sx|sx| |sx mx ex]; try contradiction;
    destruct y as [sy|sy| |sy my ey]; try contradiction;
    cbn [valid_binary] in Vx, Vy; cbn [val].
  - reflexivity.
  - pose proof (@bounded_emin _ _ Vy).
    pose proof (@val_finite_pos my ey e0 ltac:(lia)).
    destruct sy; cbn [cond_Zopp SFcompare]; f_equal; symmetry.
    + apply Z.compare_gt_iff. lia.
    + apply Z.compare_lt_iff. lia.
  - pose proof (@bounded_emin _ _ Vx).
    pose proof (@val_finite_pos mx ex e0 ltac:(lia)).
    destruct sx; cbn [cond_Zopp SFcompare]; f_equal; symmetry.
    + apply Z.compare_lt_iff. lia.
    + apply Z.compare_gt_iff. lia.
  - pose proof (@bounded_emin _ _ Vx). pose proof (@bounded_emin _ _ Vy).
    pose proof (@finite_compare_value mx my ex ey e0 Vx Vy
                  ltac:(lia) ltac:(lia)) as Hc.
    pose proof (@val_finite_pos mx ex e0 ltac:(lia)) as HX.
    pose proof (@val_finite_pos my ey e0 ltac:(lia)) as HY.
    set (X := Zpos mx * 2 ^ (ex - e0)) in *.
    set (Y := Zpos my * 2 ^ (ey - e0)) in *.
    destruct sx, sy; cbn [cond_Zopp SFcompare]; f_equal.
    + rewrite Z.compare_opp, (Z.compare_antisym X Y), Hc.
      destruct (ex ?= ey); reflexivity.
    + symmetry. apply Z.compare_lt_iff. lia.
    + symmetry. apply Z.compare_gt_iff. lia.
    + symmetry. exact Hc.
Qed.

(** A canonical float is its own rounding. *)
Lemma canonical_round (m : positive) (e : Z) :
  bounded prec emax m e = true ->
  binary_round prec emax false m e = S754_finite false m e.
Proof.
  intros B. destruct (@bounded_canonical m e B) as [C Hmax].
  rewrite (@binary_round_char m e 0) by lia.
  change (2 ^ 0) with 1. rewrite Z.mul_1_r, Z.sub_0_r.
  unfold round_at. rewrite <- C, Z.sub_diag. change (2 ^ 0) with 1.
  assert (E : rne (Zpos m) 1 = Zpos m).
  { rewrite <- (Z.mul_1_r (Zpos m)) at 1. apply rne_exact. lia. }
  rewrite E. unfold pack.
  assert (Hd : dig (Zpos m) <= 53) by (unfold fexp64 in C; lia).
  pose proof (@dig_bounds (Zpos m) ltac:(lia)) as [_ Hu].
  assert (2 ^ dig (Zpos m) <= 2 ^ 53) by (apply Z.pow_le_mono_r; lia).
  destruct (Z.ltb_spec (Zpos m) (2 ^ 53)); [|lia].
  destruct (Z.leb_spec e 971); [reflexivity|lia].
Qed.

Lemma normalize_finite (sg : bool) (m : positive) (e : Z) :
  bounded prec emax m e = true ->
  binary_normalize prec emax (cond_Zopp sg (Zpos m)) e false =
  S754_finite sg m e.
Proof.
  intros B. destruct sg; cbn [cond_Zopp Z.opp binary_normalize].
  - rewrite binary_round_opp, (@canonical_round _ _ B). reflexivity.
  - apply canonical_round, B.
Qed.

(** Equality of floats up to the sign of zero, which no comparison sees. *)
Definition zeq (a b : spec_float) : Prop :=
  a = b \/ exists s1 s2 : bool, a = S754_zero s1 /\ b = S754_zero s2.

Lemma SFleb_zeq (a a' b b' : spec_float) :
  zeq a a' -> zeq b b' -> SFleb a b = SFleb a' b'.
Proof.
  intros [->|(s1 & s2 & -> & ->)] [->|(t1 & t2 & -> & ->)]; reflexivity.
Qed.

Lemma cond_Zopp_mul (s : bool) (a k : Z) :
  cond_Zopp s a * k = cond_Zopp s (a * k).
Proof. destruct s; cbn [cond_Zopp]; lia. Qed.

Lemma scale_value (m : positive) (e ez e0 : Z) :
  ez <= e -> e0 <= ez ->
  Zpos m * 2 ^ (e - ez) * 2 ^ (ez - e0) = Zpos m * 2 ^ (e - e0).
Proof.
  intros H1 H2. rewrite <- Z.mul_assoc, <- Z.pow_add_r by lia.
  f_equal. f_equal. lia.
Qed.

(** The difference of two finite floats is the rounding of the difference of
    their values. *)
Lemma SFsub_val (e0 : Z) (x y : spec_float) :
  valid_binary x = true -> valid_binary y = true ->
  finite_or_zero x -> finite_or_zero y -> e0 <= -1074 ->
  exists D e : Z,
    zeq (SFsub prec emax x y) (binary_normalize prec emax D e false) /\
    e0 <= e /\ D * 2 ^ (e - e0) = val e0 x - val e0 y.
Proof.
  intros Vx Vy Fx Fy He.
  destruct x as [sx|sx| |sx mx ex]; try contradiction;
    destruct y as [sy|sy| |sy my ey]; try contradiction;
    cbn [valid_binary] in Vx, Vy; cbn [val].
  - exists 0, e0. split; [|lia].
    right. destruct sx, sy; repeat eexists.
  - pose proof (@bounded_emin _ _ Vy).
    exists (cond_Zopp (negb sy) (Zpos my)), ey. split; [|split; [lia|]].
    + left. rewrite (@normalize_finite (negb sy) _ _ Vy). reflexivity.
    + rewrite cond_Zopp_mul. destruct sy; cbn [negb cond_Zopp]; lia.
  - pose proof (@bounded_emin _ _ Vx).
    exists (cond_Zopp sx (Zpos mx)), ex. split; [|split; [lia|]].
    + left. rewrite (@normalize_finite sx _ _ Vx). reflexivity.
    + rewrite cond_Zopp_mul. lia.
  - pose proof (@bounded_emin _ _ Vx). pose proof (@bounded_emin _ _ Vy).
    eexists. exists (Z.min ex ey).
    split; [left; unfold SFsub; reflexivity|]. split; [lia|].
    rewrite !shl_align_value by lia.
    rewrite Z.mul_sub_distr_r, !cond_Zopp_mul, !scale_value by lia.
    reflexivity.
Qed.

Lemma SFleb_opp (a b : spec_float) :
  nonneg a -> nonneg b -> SFleb a b = true ->
  SFleb (SFopp b) (SFopp a) = true.
Proof.
  intros Ha Hb Hle.
  destruct (nonneg_cases Ha) as [[sa ->]|[->|(ma & ea & ->)]];
    destruct (nonneg_cases Hb) as [[sb ->]|[->|(mb & eb & ->)]];
    try discriminate Hle; try reflexivity.
  destruct (SFleb_finite_inv _ _ _ _ Hle) as [Hlt|[-> Hm]];
    unfold SFopp, SFleb, SFcompare; cbn [negb].
  - destruct (Z.compare_spec eb ea); try reflexivity; lia.
  - rewrite Z.compare_refl.
    change (Pos.compare_cont Eq mb ma) with (Pos.compare mb ma).
    destruct (Pos.compare_spec mb ma); try reflexivity; lia.
Qed.

Lemma opp_le_nonneg (a b : spec_float) :
  nonneg a -> nonneg b -> SFleb (SFopp a) b = true.
Proof.
  intros Ha Hb.
  destruct (nonneg_cases Ha) as [[sa ->]|[->|(ma & ea & ->)]];
    destruct (nonneg_cases Hb) as [[sb ->]|[->|(mb & eb & ->)]];
    reflexivity.
Qed.

(** Rounding keeps the order of signed integers too. *)
Lemma normalize_mono (D1 D2 e1 e2 e0 : Z) :
  e0 <= e1 -> e0 <= e2 -> e0 <= -1074 ->
  D1 * 2 ^ (e1 - e0) <= D2 * 2 ^ (e2 - e0) ->
  SFleb (binary_normalize prec emax D1 e1 false)
        (binary_normalize prec emax D2 e2 false) = true.
Proof.
  intros H1 H2 H0 Hle.
  pose proof (@pow2_pos (e1 - e0) ltac:(lia)) as P1.
  pose proof (@pow2_pos (e2 - e0) ltac:(lia)) as P2.
  destruct D1 as [|d1|d1], D2 as [|d2|d2]; cbn [binary_normalize];
    try (exfalso; nia).
  - reflexivity.
  - apply binary_round_nonneg.
  - apply (@binary_round_mono d1 d2 e1 e2 e0); assumption.
  - rewrite binary_round_opp.
    apply opp_nonneg_le_zero, binary_round_nonneg.
  - rewrite binary_round_opp.
    apply opp_le_nonneg; apply binary_round_nonneg.
  - rewrite !binary_round_opp.
    apply SFleb_opp; try apply binary_round_nonneg.
    apply (@binary_round_mono d2 d1 e2 e1 e0); try assumption.
    change (Zneg d1) with (- Zpos d1) in Hle.
    change (Zneg d2) with (- Zpos d2) in Hle. lia.
Qed.

Lemma SFcompare_some_bounds (r : spec_float) (c : comparison) :
  SFcompare r (S754_zero false) = Some c ->
  SFleb r (S754_infinity false) = true /\
  SFleb (S754_infinity true) r = true.
Proof.
  destruct r as [s|s| |s m e]; try destruct s; try discriminate;
    intros _; split; reflexivity.
Qed.

Lemma SFleb_cases (y1 y2 : spec_float) :
  SFleb y1 y2 = true ->
  (y1 = S754_infinity true /\ y2 <> S754_nan) \/
  (y2 = S754_infinity false /\ y1 <> S754_nan) \/
  (finite_or_zero y1 /\ finite_or_zero y2).
Proof.
  destruct y1 as [[]|[]| |[] m1 e1], y2 as [[]|[]| |[] m2 e2]; intros H;
    try discriminate H;
    first [ left; split; [reflexivity|discriminate]
          | right; left; split; [reflexivity|discriminate]
          | right; right; split; exact I ].
Qed.

(** Subtracting more from a finite float never gives more: the rounding of
    the difference keeps the order. *)
Lemma SFsub_antitone (x y1 y2 : spec_float) :
  valid_binary x = true -> valid_binary y1 = true ->
  valid_binary y2 = true -> finite_or_zero x ->
  SFleb y1 y2 = true ->
  SFleb (SFsub prec emax x y2) (SFsub prec emax x y1) = true.
Proof.
  intros Vx V1 V2 Fx Hle.
  assert (Hn : forall y : spec_float,
             valid_binary y = true -> y <> S754_nan ->
             exists c : comparison,
               SFcompare (SFsub prec emax x y) (S754_zero false) = Some c).
  { intros y Vy Hy. rewrite SFsub_compare; try assumption.
    - destruct x as [sx|sx| |sx mx ex]; try contradiction;
        destruct y as [sy|sy| |sy my ey]; try congruence;
        eexists; reflexivity.
    - intros s E. rewrite E in Fx. contradiction. }
  destruct (SFleb_cases _ _ Hle) as [[-> Hy]|[[-> Hy]|[F1 F2]]].
  - destruct (Hn y2 V2 Hy) as [c Hc].
    destruct (SFcompare_some_bounds _ Hc) as [Hi _].
    replace (SFsub prec emax x (S754_infinity true))
      with (S754_infinity false)
      by (destruct x; try contradiction; reflexivity).
    exact Hi.
  - destruct (Hn y1 V1 Hy) as [c Hc].
    destruct (SFcompare_some_bounds _ Hc) as [_ Hi].
    replace (SFsub prec emax x (S754_infinity false))
      with (S754_infinity true)
      by (destruct x; try contradiction; reflexivity).
    exact Hi.
  - destruct (@SFsub_val (-1074) x y2 Vx V2 Fx F2 ltac:(lia))
      as (D2 & e2 & Z2 & L2 & E2).
    destruct (@SFsub_val (-1074) x y1 Vx V1 Fx F1 ltac:(lia))
      as (D1 & e1 & Z1 & L1 & E1).
    pose proof (@SFcompare_val (-1074) y1 y2 V1 V2 F1 F2 ltac:(lia)) as Hc.
    unfold SFleb in Hle. rewrite Hc in Hle.
    assert (Hv : val (-1074) y1 <= val (-1074) y2).
    { destruct (Z.compare_spec (val (-1074) y1) (val (-1074) y2));
        try discriminate Hle; lia. }
    rewrite (SFleb_zeq Z2 Z1).
    apply (@normalize_mono D2 D1 e2 e1 (-1074)); lia.
Qed.

End Rounding.

(** ** The Shopify fees in binary64 *)

Section FeesBinary64.

(** The two literals of [calculate_shopify_fees], as Python reads them: the
    floats nearest to 0.029 and to 0.30. *)
Lemma Prim2SF_fee_rate :
  Prim2SF (float_lit 0.029%Q) = S754_finite false 8358680908399641 (-58)%Z.
Proof. vm_compute. reflexivity. Qed.

Lemma Prim2SF_fee_fixed :
  Prim2SF (float_lit 0.30%Q) = S754_finite false 5404319552844595 (-54)%Z.
Proof. vm_compute. reflexivity. Qed.

Lemma Prim2SF_fees (p : float) :
  Prim2SF (calculate_shopify_fees p) =
  SFadd prec emax
    (SFmul prec emax (S754_finite false 8358680908399641 (-58)%Z) (Prim2SF p))
    (S754_finite false 5404319552844595 (-54)%Z).
Proof.
  unfold calculate_shopify_fees. cbn [lit add mul binary64].
  rewrite add_spec, mul_spec, Prim2SF_fee_rate, Prim2SF_fee_fixed.
  reflexivity.
Qed.

Lemma valid_scaled (p : float) :
  valid_binary
    (SFmul prec emax (S754_finite false 8358680908399641 (-58)%Z) (Prim2SF p))
  = true.
Proof.
  rewrite <- Prim2SF_fee_rate.
  change (SFmul prec emax (Prim2SF (float_lit 0.029%Q)) (Prim2SF p))
    with (SF64mul (Prim2SF (float_lit 0.029%Q)) (Prim2SF p)).
  rewrite <- mul_spec. apply Prim2SF_valid.
Qed.

(** In binary64 the fees of a non-negative price are not above the fees of
    a higher price. *)
Lemma fees_binary64_le (p1 p2 : float) :
  PrimFloat.leb (float_lit 0) p1 = true -> PrimFloat.leb p1 p2 = true ->
  PrimFloat.leb (calculate_shopify_fees p1) (calculate_shopify_fees p2) = true.
Proof.
  rewrite !leb_spec, !Prim2SF_fees, Prim2SF_zero.
  intros H0 H12.
  assert (Hrate : (2 ^ 52 <= 8358680908399641)%Z) by (vm_compute; discriminate).
  apply SFadd_shift_mono.
  - vm_compute. reflexivity.
  - apply valid_scaled.
  - apply valid_scaled.
  - unfold nonneg.
    change (S754_zero false)
      with (SFmul prec emax (S754_finite false 8358680908399641 (-58)%Z)
              (S754_zero false)) at 1.
    apply SFmul_scale_mono; try assumption; try reflexivity.
    apply Prim2SF_valid.
  - apply SFmul_scale_mono; try assumption; try apply Prim2SF_valid.
Qed.

(** In binary64 the fees of a non-negative price are at least the float
    0.30. *)
Lemma fees_binary64_bound (p : float) :
  PrimFloat.leb (float_lit 0) p = true ->
  PrimFloat.leb (float_lit 0.30%Q) (calculate_shopify_fees p) = true.
Proof.
  intros Hp.
  replace (float_lit 0.30%Q) with (calculate_shopify_fees (float_lit 0))
    by (vm_compute; reflexivity).
  apply fees_binary64_le; [reflexivity|exact Hp].
Qed.

End FeesBinary64.

(** ** Signs in binary64 *)

Section SignsBinary64.

Local Open Scope float_scope.

Lemma finite_not_infinity (x : float) (s : bool) :
  is_finite x = true -> Prim2SF x <> S754_infinity s.
Proof.
  intros Hx E.
  destruct (finite_cases x Hx) as [[b Hb]|(b & m & e & Hb)];
    rewrite Hb in E; discriminate.
Qed.

(** In binary64 a finite float that is not negative, divided by a positive
    float, is not negative. *)
Lemma div_binary64_nonneg (p v : float) :
  PrimFloat.leb (float_lit 0) p = true ->
  PrimFloat.ltb (float_lit 0) v = true ->
  is_finite p = true ->
  PrimFloat.leb (float_lit 0) (p / v) = true.
Proof.
  rewrite !leb_spec, ltb_spec, div_spec, Prim2SF_zero. intros Hp Hv Hf.
  apply SFdiv_nonneg; try assumption.
  intros E. exfalso. exact (@finite_not_infinity p false Hf E).
Qed.

(** In binary64 the difference [x - y] of a finite [x] and any [y] is
    positive, zero or negative as [x] is above, equal to or below [y]. *)
Lemma sub_binary64_sign (x y : float) :
  is_finite x = true ->
  PrimFloat.ltb (float_lit 0) (x - y) = PrimFloat.ltb y x /\
  PrimFloat.eqb (x - y) (float_lit 0) = PrimFloat.eqb x y /\
  PrimFloat.ltb (x - y) (float_lit 0) = PrimFloat.ltb x y.
Proof.
  intros Hx.
  assert (Hc : SFcompare (Prim2SF (x - y)) (S754_zero false) =
               SFcompare (Prim2SF x) (Prim2SF y)).
  { rewrite sub_spec. apply SFsub_compare; try apply Prim2SF_valid.
    intros s E. exfalso. exact (@finite_not_infinity x s Hx E). }
  rewrite !ltb_spec, !eqb_spec, Prim2SF_zero. unfold SFltb, SFeqb.
  rewrite (SFcompare_antisym (Prim2SF (x - y)) (S754_zero false)).
  rewrite (SFcompare_antisym (Prim2SF x) (Prim2SF y)).
  rewrite Hc. repeat split.
Qed.

Lemma fees_binary64_nonneg (p : float) :
  PrimFloat.leb (float_lit 0) p = true ->
  PrimFloat.leb (float_lit 0) (calculate_shopify_fees p) = true.
Proof.
  intros Hp. pose proof (fees_binary64_bound Hp) as H.
  rewrite leb_spec in *. rewrite Prim2SF_fee_fixed in H.
  rewrite Prim2SF_zero.
  destruct (Prim2SF (calculate_shopify_fees p)) as [b|b| |b m e];
    try destruct b; try discriminate H; reflexivity.
Qed.

End SignsBinary64.

Section SignsBinary64More.

Local Open Scope float_scope.

(** In binary64 a finite float that is not negative, divided by a negative
    float, is not positive. *)
Lemma div_binary64_nonpos (p v : float) :
  PrimFloat.leb (float_lit 0) p = true ->
  PrimFloat.ltb v (float_lit 0) = true ->
  is_finite p = true ->
  PrimFloat.leb (p / v) (float_lit 0) = true.
Proof.
  rewrite !leb_spec, ltb_spec, div_spec, Prim2SF_zero. intros Hp Hv Hf.
  apply SFdiv_nonpos; try assumption.
  intros E. exfalso. exact (@finite_not_infinity p false Hf E).
Qed.

(** A float below zero is not [==] to zero. *)
Lemma lt_zero_ne (x : float) :
  PrimFloat.ltb x (float_lit 0) = true -> PrimFloat.eqb x (float_lit 0) = false.
Proof.
  rewrite ltb_spec, eqb_spec, Prim2SF_zero.
  destruct (Prim2SF x) as [s|s| |s m e]; try destruct s; cbn; congruence.
Qed.

End SignsBinary64More.

(** ** The modes in binary64 *)

Section ModesBinary64.

Local Open Scope py_scope.

(** In binary64, for a finite price and inputs that are not negative, the ad
    spend, the CPA and the ROAS of either mode are not negative. *)
Lemma resolved_binary64_nonneg (p : float) (m : calculation_mode)
    (v a k o : float) :
  (lit 0 <= p) = true -> is_finite p = true -> (lit 0 <= v) = true ->
  resolved p m v = (a, k, o) ->
  (lit 0 <= a) = true /\ (lit 0 <= k) = true /\ (lit 0 <= o) = true.
Proof.
  intros Hp Hf Hv Hm.
  assert (Hz : ((lit 0 : float) <= lit 0) = true) by reflexivity.
  destruct m; cbn [resolved] in Hm; destruct (v > lit 0) eqn:Hpos;
    injection Hm as <- <- <-; repeat split;
    try assumption; try exact Hz;
    apply div_binary64_nonneg; assumption.
Qed.

(** With a desired value greater than zero, the product of the CPA and the
    ROAS of either mode is the float product of the desired value and the
    float quotient. *)
Lemma resolved_binary64_product (p : float) (m : calculation_mode)
    (v a k o : float) :
  (v > lit 0) = true ->
  resolved p m v = (a, k, o) ->
  k * o = v * quot p v.
Proof.
  intros Hv Hm.
  destruct m; cbn [resolved] in Hm; rewrite Hv in Hm;
    injection Hm as <- <- <-; [reflexivity|].
  apply mul_comm_binary64.
Qed.

End ModesBinary64.

(** ** Differences in binary64 *)

Section DifferencesBinary64.

Local Open Scope float_scope.

(** Subtracting +0.0 changes no float. *)
Lemma sub_zero_binary64 (x : float) : x - float_lit 0 = x.
Proof.
  apply Prim2SF_inj. rewrite sub_spec, Prim2SF_zero.
  destruct (Prim2SF x) as [s|s| |s m e]; try destruct s; reflexivity.
Qed.

Lemma finite_or_zero_Prim2SF (x : float) :
  is_finite x = true -> finite_or_zero (Prim2SF x).
Proof.
  intros Hx.
  destruct (finite_cases x Hx) as [[s Hs]|(s & m & e & Hs)];
    rewrite Hs; exact I.
Qed.

(** In binary64, subtracting a float that is not lower from a finite float
    gives a difference that is not higher. *)
Lemma sub_binary64_antitone (x y1 y2 : float) :
  is_finite x = true ->
  PrimFloat.leb y1 y2 = true ->
  PrimFloat.leb (x - y2) (x - y1) = true.
Proof.
  intros Hx. rewrite !leb_spec, !sub_spec.
  apply SFsub_antitone; try apply Prim2SF_valid.
  apply finite_or_zero_Prim2SF, Hx.
Qed.

End DifferencesBinary64.

(** ** The page of the script *)

Section Page.

Context {F : Type} `{Comparisons F}.

Local Open Scope py_scope.

(** C1.  For every input the script produces a page, and on it the profit is
    the product price minus COGS, minus the Shopify fees of the page, minus
    the ad spend of the page: the same subtractions on the same values, with
    no rounding step in between. *)
Theorem C1_profit_identity (p c : F) (m : calculation_mode) (v : F)
    (ch : chart_type) :
  exists r : page F,
    profitcalc p c m v ch = Ok r /\
    profit r = p - c - shopify_fees r - ad_spend r.
Proof.
  destruct (profitcalc_eq p c m v ch) as (r & Hr & _ & _ & _ & Hp & _).
  exists r. split; assumption.
Qed.

(** C2.  In CPA mode the ad spend and the CPA of the page are the desired
    CPA; the ROAS is the quotient [product_price / ad_spend] when the ad
    spend is greater than zero, and 0 otherwise. *)
Theorem C2_cpa_mode (p c v : F) (ch : chart_type) :
  exists r : page F,
    profitcalc p c CPA v ch = Ok r /\
    ad_spend r = v /\
    final_cpa r = v /\
    ((ad_spend r > lit 0) = true ->
       truediv p (ad_spend r) = Ok (final_roas r)) /\
    ((ad_spend r > lit 0) = false -> final_roas r = lit 0).
Proof.
  destruct (profitcalc_eq p c CPA v ch) as (r & Hr & _ & _ & Hm & _).
  exists r. split; [exact Hr|].
  cbn [resolved] in Hm. injection Hm as Ha Hk Ho.
  rewrite Ha, Hk, Ho. repeat split.
  - intros Hv. rewrite Hv. apply truediv_positive, Hv.
  - intros Hv. rewrite Hv. reflexivity.
Qed.

(** C3.  In ROAS mode, when the desired ROAS is greater than zero the ad
    spend is the quotient [product_price / desired_roas], the CPA is the ad
    spend and the ROAS is the desired ROAS; when the desired ROAS is less
    than or equal to zero, and in particular when it equals zero, the ad
    spend, the CPA and the ROAS are all 0.  In both cases a page is
    produced: nothing is raised. *)
Theorem C3_roas_mode (p c v : F) (ch : chart_type) :
  exists r : page F,
    profitcalc p c ROAS v ch = Ok r /\
    ((v > lit 0) = true ->
       truediv p v = Ok (ad_spend r) /\
       final_cpa r = ad_spend r /\
       final_roas r = v) /\
    ((v <= lit 0) = true ->
       ad_spend r = lit 0 /\ final_cpa r = lit 0 /\ final_roas r = lit 0) /\
    ((v == lit 0) = true ->
       ad_spend r = lit 0 /\ final_cpa r = lit 0 /\ final_roas r = lit 0).
Proof.
  destruct (profitcalc_eq p c ROAS v ch) as (r & Hr & _ & _ & Hm & _).
  exists r. split; [exact Hr|].
  cbn [resolved] in Hm.
  split; [|split]; intros Hv.
  - rewrite Hv in Hm. injection Hm as Ha Hk Ho.
    rewrite Ha, Hk, Ho. repeat split. apply truediv_positive, Hv.
  - rewrite (le_zero_not_gt _ Hv) in Hm. injection Hm as Ha Hk Ho.
    rewrite Ha, Hk, Ho. repeat split.
  - rewrite (eq_zero_not_gt _ Hv) in Hm. injection Hm as Ha Hk Ho.
    rewrite Ha, Hk, Ho. repeat split.
Qed.

End Page.

Section Breakeven.

Context {F : Type} `{Arith F}.

Local Open Scope py_scope.

(** C5.  [calculate_breakeven_metrics] returns, without raising, a breakeven
    CPA equal to [p - c - fees] whatever its sign (nothing is clamped), and a
    breakeven ROAS equal to the quotient [p / breakeven_cpa] when the
    breakeven CPA is different from zero, and to 0 when it equals zero. *)
Theorem C5_breakeven_metrics (p c fees : F) :
  exists r : breakeven_metrics F,
    calculate_breakeven_metrics p c fees = Ok r /\
    breakeven_cpa r = p - c - fees /\
    ((breakeven_cpa r != lit 0) = true ->
       truediv p (breakeven_cpa r) = Ok (breakeven_roas r)) /\
    ((breakeven_cpa r == lit 0) = true -> breakeven_roas r = lit 0).
Proof.
  rewrite breakeven_eq. eexists. split; [reflexivity|]. cbn.
  repeat split.
  - intros Hne. apply negb_true_iff in Hne. rewrite Hne.
    apply truediv_nonzero, Hne.
  - intros He. rewrite He. reflexivity.
Qed.

End Breakeven.

Section Guards.

Context {F : Type} `{Comparisons F}.

Local Open Scope py_scope.

(** C8, amended.  The script raises nothing, whatever its inputs: it always
    produces a page.  Each of its three divisions is behind a guard.  A
    breakeven denominator equal to zero gives the breakeven ROAS 0; a desired
    CPA or ROAS that is zero or negative gives the ROAS 0.  (A negative
    breakeven denominator is not replaced: the division is carried out.) *)
Theorem C8_never_raises :
  (forall (p c : F) (m : calculation_mode) (v : F) (ch : chart_type),
     exists r : page F, profitcalc p c m v ch = Ok r) /\
  (forall p c fees : F,
     exists r : breakeven_metrics F,
       calculate_breakeven_metrics p c fees = Ok r /\
       ((p - c - fees == lit 0) = true -> breakeven_roas r = lit 0)) /\
  (forall (p : F) (m : calculation_mode) (v : F),
     exists a k o : F,
       mode_specific_logic p m v = Ok (a, k, o) /\
       ((v <= lit 0) = true -> o = lit 0) /\
       ((v == lit 0) = true -> o = lit 0)).
Proof.
  split; [|split].
  - intros p c m v ch.
    destruct (profitcalc_eq p c m v ch) as (r & Hr & _). exists r. exact Hr.
  - intros p c fees. rewrite breakeven_eq. eexists. split; [reflexivity|].
    cbn. intros He. rewrite He. reflexivity.
  - intros p m v. rewrite mode_specific_logic_eq.
    destruct (resolved p m v) as [[a k] o] eqn:Hr. exists a, k, o.
    split; [reflexivity|].
    split; intros Hv;
      [apply le_zero_not_gt in Hv | apply eq_zero_not_gt in Hv];
      destruct m; cbn [resolved] in Hr; rewrite Hv in Hr;
      injection Hr as _ _ Ho; symmetry; exact Ho.
Qed.

End Guards.


(** ** Fees, breakeven and the product of CPA and ROAS, as Python computes
    them *)

Section ClaimsBinary64.

Local Open Scope py_scope.

(** C4.  [calculate_shopify_fees] returns [0.029 * product_price + 0.30] as
    Python evaluates it: the IEEE product of the price by the double nearest
    to 0.029, plus the double nearest to 0.30, each operation rounded to
    nearest.  On these floats it is monotonically increasing over the prices
    that are not negative: a price that is not lower never gets lower
    fees. *)
Theorem C4_shopify_fees :
  (forall (F : Type) (A : Arith F) (p : F),
     calculate_shopify_fees p = lit 0.029 * p + lit 0.30) /\
  (forall p : float,
     Prim2SF (calculate_shopify_fees p) =
     SFadd prec emax
       (SFmul prec emax (S754_finite false 8358680908399641 (-58)%Z)
          (Prim2SF p))
       (S754_finite false 5404319552844595 (-54)%Z)) /\
  (forall p1 p2 : float,
     (lit 0 <= p1) = true -> (p1 <= p2) = true ->
     (calculate_shopify_fees p1 <= calculate_shopify_fees p2) = true).
Proof.
  split; [reflexivity|]. split.
  - exact Prim2SF_fees.
  - exact fees_binary64_le.
Qed.

(** C6, amended.  The Shopify fees on the page are
    [0.029 * product_price + 0.30] for every input; in binary64 they are at
    least the float 0.30 whenever the product price is not negative. *)
Theorem C6_fees_bound :
  (forall (F : Type) (A : Arith F) (HC : Comparisons F) (p c : F)
          (m : calculation_mode) (v : F) (ch : chart_type),
     exists r : page F,
       profitcalc p c m v ch = Ok r /\
       shopify_fees r = lit 0.029 * p + lit 0.30) /\
  (forall (p c : float) (m : calculation_mode) (v : float) (ch : chart_type),
     (lit 0 <= p) = true ->
     exists r : page float,
       profitcalc p c m v ch = Ok r /\ (shopify_fees r >= lit 0.30) = true).
Proof.
  split.
  - intros F A HC p c m v ch.
    destruct (profitcalc_eq p c m v ch) as (r & Hr & Hf & _).
    exists r. split; [exact Hr|exact Hf].
  - intros p c m v ch Hp.
    destruct (profitcalc_eq p c m v ch) as (r & Hr & Hf & _).
    exists r. split; [exact Hr|]. rewrite Hf.
    apply fees_binary64_bound, Hp.
Qed.

(** C7, amended.  In binary64, with the ad spend set to the breakeven CPA
    that [calculate_breakeven_metrics] returns, the profit formula
    [p - c - fees - ad_spend] is the float +0.0 whenever that breakeven CPA
    is finite; when it is an infinity (the subtractions overflowed) or a
    NaN, the formula gives a NaN, not zero. *)
Theorem C7_breakeven_zero_profit (p c fees : float) :
  exists r : breakeven_metrics float,
    calculate_breakeven_metrics p c fees = Ok r /\
    (is_finite (breakeven_cpa r) = true ->
     p - c - fees - breakeven_cpa r = 0%float) /\
    (is_finite (breakeven_cpa r) = false ->
     is_nan (p - c - fees - breakeven_cpa r) = true).
Proof.
  rewrite breakeven_eq. eexists. split; [reflexivity|].
  cbn [breakeven_cpa]. split.
  - apply sub_diag_finite.
  - apply sub_diag_nonfinite.
Qed.

(** C9, amended.  The chart receives the four labels and, in the same order,
    the COGS, the Shopify fees, the ad spend and the profit of the page as
    they were computed: nothing is clamped.  In binary64 the first three are
    not negative when the product price is finite and not negative and the
    COGS and the desired CPA or ROAS are not negative; the profit can be
    negative and then reaches the chart as it is. *)
Theorem C9_chart_values :
  (forall (F : Type) (A : Arith F) (HC : Comparisons F) (p c : F)
          (m : calculation_mode) (v : F) (ch : chart_type),
     exists r : page F,
       profitcalc p c m v ch = Ok r /\
       fig_labels (fig r) = labels /\
       fig_values (fig r) = [c; shopify_fees r; ad_spend r; profit r]) /\
  (forall (p c : float) (m : calculation_mode) (v : float) (ch : chart_type),
     (lit 0 <= p) = true -> is_finite p = true ->
     (lit 0 <= c) = true -> (lit 0 <= v) = true ->
     exists r : page float,
       profitcalc p c m v ch = Ok r /\
       Forall (fun x : float => (lit 0 <= x) = true)
              (firstn 3 (fig_values (fig r)))).
Proof.
  split.
  - intros F A HC p c m v ch.
    destruct (profitcalc_eq p c m v ch) as (r & Hr & _ & _ & _ & _ & Hl & Hv).
    exists r. repeat split; assumption.
  - intros p c m v ch Hp Hf Hc Hv.
    destruct (page_breakeven p c m v ch)
      as (r & Hr & Hm & Hfee & _ & _ & _ & Hvs).
    exists r. split; [exact Hr|].
    destruct (resolved_binary64_nonneg _ Hp Hf Hv (eq_sym Hm)) as (Ha & _).
    rewrite Hvs. cbn [firstn]. repeat constructor; try assumption.
    rewrite Hfee. apply fees_binary64_nonneg, Hp.
Qed.

(** C10, amended.  When the desired CPA or ROAS is greater than zero, one of
    the CPA and the ROAS of the page is that desired value and the other is
    the quotient of the product price by it, in every arithmetic.  In
    binary64 their product is therefore the float product of the desired
    value and the float quotient: a number rounded twice, which need not be
    the product price. *)
Theorem C10_cpa_times_roas :
  (forall (F : Type) (A : Arith F) (HC : Comparisons F) (p c : F)
          (m : calculation_mode) (v : F) (ch : chart_type),
     (v > lit 0) = true ->
     exists r : page F,
       profitcalc p c m v ch = Ok r /\
       (final_cpa r = v /\ final_roas r = quot p v \/
        final_cpa r = quot p v /\ final_roas r = v)) /\
  (forall (p c : float) (m : calculation_mode) (v : float) (ch : chart_type),
     (v > lit 0) = true ->
     exists r : page float,
       profitcalc p c m v ch = Ok r /\
       final_cpa r * final_roas r = v * quot p v).
Proof.
  split.
  - intros F A HC p c m v ch Hv.
    destruct (profitcalc_eq p c m v ch) as (r & Hr & _ & _ & Hm & _).
    exists r. split; [exact Hr|].
    destruct m; cbn [resolved] in Hm; rewrite Hv in Hm;
      injection Hm as _ -> ->; auto.
  - intros p c m v ch Hv.
    destruct (profitcalc_eq p c m v ch) as (r & Hr & _ & _ & Hm & _).
    exists r. split; [exact Hr|].
    exact (resolved_binary64_product p m Hv (eq_sym Hm)).
Qed.

End ClaimsBinary64.

(** ** Profit and breakeven on the page *)

Section ProfitBreakeven.

Context {F : Type} `{Comparisons F}.

Local Open Scope py_scope.

(** X1.  In every arithmetic, binary64 included, the profit on the page is
    the breakeven CPA of the page minus the ad spend of the page: one
    subtraction away from the number [calculate_breakeven_metrics]
    returned, with no other rounding between the two. *)
Theorem profit_is_breakeven_minus_ad_spend (p c : F) (m : calculation_mode)
    (v : F) (ch : chart_type) :
  exists r : page F,
    profitcalc p c m v ch = Ok r /\
    profit r = breakeven_cpa (breakeven_data r) - ad_spend r.
Proof.
  destruct (page_breakeven p c m v ch) as (r & Hr & _ & _ & Hb & _ & Hp & _).
  exists r. split; [exact Hr|]. rewrite Hb. exact Hp.
Qed.

End ProfitBreakeven.

(** ** The page in binary64 *)

Section Binary64Page.

Local Open Scope py_scope.

(** X8.  In binary64, the arithmetic Python runs, [calculate_shopify_fees]
    is weakly increasing over the non-negative prices (infinity included):
    the two roundings keep the order.  It is not strictly increasing there:
    1.0 and the next float above it get the same fees. *)
Theorem fees_binary64_monotone :
  (forall p1 p2 : float,
     (lit 0 <= p1) = true -> (p1 <= p2) = true ->
     (calculate_shopify_fees p1 <= calculate_shopify_fees p2) = true) /\
  (exists p1 p2 : float,
     (lit 0 <= p1) = true /\ (p2 > p1) = true /\
     calculate_shopify_fees p1 = calculate_shopify_fees p2).
Proof.
  split.
  - exact fees_binary64_le.
  - exists 1%float, 1.0000000000000002%float.
    repeat split; vm_compute; reflexivity.
Qed.

(** X9.  In binary64, for every product price that is not negative (what
    the price widget allows), the Shopify fees on the page are at least the
    float 0.30. *)
Theorem fees_binary64_at_least_fixed_fee (p c : float)
    (m : calculation_mode) (v : float) (ch : chart_type) :
  (lit 0 <= p) = true ->
  exists r : page float,
    profitcalc p c m v ch = Ok r /\ (shopify_fees r >= lit 0.30) = true.
Proof.
  intros Hp.
  destruct (page_breakeven p c m v ch) as (r & Hr & _ & Hf & _).
  exists r. split; [exact Hr|]. rewrite Hf.
  apply fees_binary64_bound, Hp.
Qed.

(** X10.  In binary64, CPA mode run at the breakeven CPA of the inputs, when
    that is positive and finite, shows a CPA and a ROAS equal to the
    breakeven CPA and the breakeven ROAS of the page, and a profit that is
    the float +0.0 itself. *)
Theorem cpa_at_breakeven_binary64 (p c : float) (ch : chart_type) :
  (p - c - calculate_shopify_fees p > lit 0) = true ->
  is_finite (p - c - calculate_shopify_fees p) = true ->
  exists r : page float,
    profitcalc p c CPA (p - c - calculate_shopify_fees p) ch = Ok r /\
    final_cpa r = breakeven_cpa (breakeven_data r) /\
    final_roas r = breakeven_roas (breakeven_data r) /\
    profit r = 0%float.
Proof.
  intros Hpos Hfin.
  destruct (page_breakeven p c CPA (p - c - calculate_shopify_fees p) ch)
    as (r & Hr & Hm & _ & Hb & Ho & Hp & _).
  exists r. split; [exact Hr|].
  cbn [resolved] in Hm. rewrite Hpos in Hm. injection Hm as Ha Hk Hq.
  rewrite Hb, Ho, Hk, Hq, Hp, Ha, (gt_zero_ne _ Hpos).
  repeat split. apply sub_diag_finite, Hfin.
Qed.

End Binary64Page.

Section Binary64Signs.

Local Open Scope py_scope.

(** X11.  In binary64, whenever the breakeven CPA of the page is finite, the
    profit on the page is greater than, equal to or less than zero exactly
    when the breakeven CPA is greater than, equal to or less than the ad
    spend: the rounding of the last subtraction never turns a difference
    into zero or changes its sign. *)
Theorem profit_sign_binary64 (p c : float) (m : calculation_mode) (v : float)
    (ch : chart_type) :
  exists r : page float,
    profitcalc p c m v ch = Ok r /\
    (is_finite (breakeven_cpa (breakeven_data r)) = true ->
     (profit r > lit 0) = (breakeven_cpa (breakeven_data r) > ad_spend r) /\
     (profit r == lit 0) = (breakeven_cpa (breakeven_data r) == ad_spend r) /\
     (lit 0 > profit r) = (ad_spend r > breakeven_cpa (breakeven_data r))).
Proof.
  destruct (page_breakeven p c m v ch) as (r & Hr & _ & _ & Hb & _ & Hp & _).
  exists r. split; [exact Hr|]. rewrite Hp, Hb. intros Hf.
  exact (@sub_binary64_sign _ (ad_spend r) Hf).
Qed.

(** X12.  In binary64, for a finite product price, a COGS and a desired CPA
    or ROAS that are not negative (what the widgets allow), the COGS, the
    Shopify fees and the ad spend handed to the chart are not negative, and
    neither are the CPA and the ROAS shown: none of them is a NaN. *)
Theorem page_binary64_nonneg (p c : float) (m : calculation_mode) (v : float)
    (ch : chart_type) :
  (lit 0 <= p) = true -> is_finite p = true ->
  (lit 0 <= c) = true -> (lit 0 <= v) = true ->
  exists r : page float,
    profitcalc p c m v ch = Ok r /\
    Forall (fun x : float => (lit 0 <= x) = true)
           (firstn 3 (fig_values (fig r))) /\
    (lit 0 <= final_cpa r) = true /\
    (lit 0 <= final_roas r) = true.
Proof.
  intros Hp Hf Hc Hv.
  destruct (page_breakeven p c m v ch)
    as (r & Hr & Hm & Hfee & _ & _ & _ & Hvs).
  exists r. split; [exact Hr|].
  destruct (resolved_binary64_nonneg _ Hp Hf Hv (eq_sym Hm))
    as (Ha & Hk & Ho).
  rewrite Hvs. cbn [firstn]. split; [|split; assumption].
  repeat constructor; try assumption.
  rewrite Hfee. apply fees_binary64_nonneg, Hp.
Qed.

End Binary64Signs.

Section Binary64Zero.

Local Open Scope py_scope.

(** X13.  In binary64, with a desired CPA or a desired ROAS of 0 the page
    shows an ad spend, a CPA and a ROAS of 0 in both modes (no division is
    attempted), and the profit is the breakeven CPA of the page itself, bit
    for bit. *)
Theorem zero_mode_value_binary64 (p c : float) (m : calculation_mode)
    (ch : chart_type) :
  exists r : page float,
    profitcalc p c m (lit 0) ch = Ok r /\
    ad_spend r = lit 0 /\ final_cpa r = lit 0 /\ final_roas r = lit 0 /\
    profit r = breakeven_cpa (breakeven_data r).
Proof.
  destruct (page_breakeven p c m (lit 0) ch)
    as (r & Hr & Hm & _ & Hb & _ & Hp & _).
  exists r. split; [exact Hr|].
  assert (Hz : ((lit 0 : float) > lit 0) = false) by reflexivity.
  destruct m; cbn [resolved] in Hm; rewrite Hz in Hm;
    injection Hm as Ha Hk Ho; rewrite Hp, Hb, Ha, Hk, Ho;
    repeat split; apply sub_zero_binary64.
Qed.

End Binary64Zero.

Section Binary64Modes.

Local Open Scope py_scope.

(** X5.  In binary64, the CPA that ROAS mode shows, entered as the desired
    CPA in CPA mode, gives back the same ad spend, the same CPA and the same
    profit, bit for bit, for every input.  The ROAS need not come back: at
    price 1 and desired ROAS 49, CPA mode shows a ROAS just above 49. *)
Theorem roas_then_cpa_binary64 :
  (forall (p c v : float) (ch : chart_type),
     exists r1 r2 : page float,
       profitcalc p c ROAS v ch = Ok r1 /\
       profitcalc p c CPA (final_cpa r1) ch = Ok r2 /\
       ad_spend r2 = ad_spend r1 /\
       final_cpa r2 = final_cpa r1 /\
       profit r2 = profit r1) /\
  (exists r1 r2 : page float,
     profitcalc 1%float 0%float ROAS 49%float PieChart = Ok r1 /\
     profitcalc 1%float 0%float CPA (final_cpa r1) PieChart = Ok r2 /\
     final_roas r1 = 49%float /\
     final_roas r2 = 49.000000000000007%float /\
     final_roas r2 <> final_roas r1).
Proof.
  split.
  - intros p c v ch.
    destruct (page_breakeven p c ROAS v ch)
      as (r1 & Hr1 & Hm1 & _ & _ & _ & Hp1 & _).
    destruct (page_breakeven p c CPA (final_cpa r1) ch)
      as (r2 & Hr2 & Hm2 & _ & _ & _ & Hp2 & _).
    exists r1, r2. split; [exact Hr1|]. split; [exact Hr2|].
    assert (E1 : final_cpa r1 = ad_spend r1).
    { cbn [resolved] in Hm1. destruct (v > lit 0);
        injection Hm1 as -> -> _; reflexivity. }
    cbn [resolved] in Hm2. injection Hm2 as Ha2 Hk2 _.
    rewrite Hp1, Hp2, Ha2, Hk2, E1. repeat split.
  - eexists. eexists. split; [vm_compute; reflexivity|].
    split; [vm_compute; reflexivity|].
    split; [vm_compute; reflexivity|].
    split; [vm_compute; reflexivity|].
    apply float_eqb_false_neq; vm_compute; reflexivity.
Qed.

(** X6.  In binary64, for a finite product price that is not negative, the
    breakeven ROAS of the page follows the sign of the breakeven CPA: it is
    not negative when the breakeven CPA is greater than zero, and not
    positive when the breakeven CPA is less than zero, where the negative
    quotient is shown as it is. *)
Theorem breakeven_roas_sign_binary64 (p c : float) (m : calculation_mode)
    (v : float) (ch : chart_type) :
  (lit 0 <= p) = true -> is_finite p = true ->
  exists r : page float,
    profitcalc p c m v ch = Ok r /\
    ((breakeven_cpa (breakeven_data r) > lit 0) = true ->
     (breakeven_roas (breakeven_data r) >= lit 0) = true) /\
    ((lit 0 > breakeven_cpa (breakeven_data r)) = true ->
     (breakeven_roas (breakeven_data r) <= lit 0) = true).
Proof.
  intros Hp Hf.
  destruct (page_breakeven p c m v ch) as (r & Hr & _ & _ & Hb & Ho & _).
  exists r. split; [exact Hr|]. rewrite Hb, Ho. split; intros Hs.
  - rewrite (gt_zero_ne _ Hs). apply div_binary64_nonneg; assumption.
  - cbn [eqb lit binary64]. rewrite (@lt_zero_ne _ Hs).
    apply div_binary64_nonpos; assumption.
Qed.

End Binary64Modes.

Section Binary64Order.

Local Open Scope py_scope.

(** X7.  In binary64, in CPA mode with a finite breakeven CPA, a desired CPA
    that is not lower never gives a higher profit: the rounding of the last
    subtraction keeps the order. *)
Theorem cpa_profit_antitone_binary64 (p c v1 v2 : float) (ch : chart_type) :
  is_finite (p - c - calculate_shopify_fees p) = true ->
  (v1 <= v2) = true ->
  exists r1 r2 : page float,
    profitcalc p c CPA v1 ch = Ok r1 /\
    profitcalc p c CPA v2 ch = Ok r2 /\
    (profit r2 <= profit r1) = true.
Proof.
  intros Hf Hv.
  destruct (page_breakeven p c CPA v1 ch)
    as (r1 & Hr1 & Hm1 & _ & _ & _ & Hp1 & _).
  destruct (page_breakeven p c CPA v2 ch)
    as (r2 & Hr2 & Hm2 & _ & _ & _ & Hp2 & _).
  exists r1, r2. split; [exact Hr1|]. split; [exact Hr2|].
  cbn [resolved] in Hm1, Hm2.
  injection Hm1 as Ha1 _ _. injection Hm2 as Ha2 _ _.
  rewrite Hp1, Hp2, Ha1, Ha2.
  exact (@sub_binary64_antitone _ v1 v2 Hf Hv).
Qed.

(** X14.  In binary64, for a finite product price and a desired CPA or ROAS
    that are not negative, the profit on the page is never above the
    breakeven CPA of the page, when that is finite. *)
Theorem profit_at_most_breakeven_binary64 (p c : float)
    (m : calculation_mode) (v : float) (ch : chart_type) :
  (lit 0 <= p) = true -> is_finite p = true -> (lit 0 <= v) = true ->
  exists r : page float,
    profitcalc p c m v ch = Ok r /\
    (is_finite (breakeven_cpa (breakeven_data r)) = true ->
     (profit r <= breakeven_cpa (breakeven_data r)) = true).
Proof.
  intros Hp Hf Hv.
  destruct (page_breakeven p c m v ch)
    as (r & Hr & Hm & _ & Hb & _ & Hpr & _).
  exists r. split; [exact Hr|]. rewrite Hpr, Hb. intros Hfb.
  destruct (resolved_binary64_nonneg _ Hp Hf Hv (eq_sym Hm)) as (Ha & _).
  pose proof (@sub_binary64_antitone _ (float_lit 0) (ad_spend r) Hfb Ha)
    as H.
  rewrite sub_zero_binary64 in H. exact H.
Qed.

End Binary64Order.

(** ** The claims on concrete inputs, as Python computes them *)

Section Runs.

Local Open Scope float_scope.

(** Scenario 1 of the specification: price 82.99, COGS 10, CPA mode with a
    desired CPA of 20. *)
Example scenario_1 :
  profitcalc 82.99 10 CPA 20 PieChart =
  Ok {| shopify_fees := 2.7067099999999997;
        breakeven_data := {| breakeven_cpa := 70.283289999999994;
                             breakeven_roas := 1.1807927602706134 |};
        ad_spend := 20;
        final_cpa := 20;
        final_roas := 4.1494999999999997;
        profit := 50.283289999999994;
        fig := px_pie labels
                 [10; 2.7067099999999997; 20; 50.283289999999994] |}.
Proof. vm_compute. reflexivity. Qed.

Lemma C1_profit_identity_witness :
  exists r : page float,
    profitcalc 82.99 10 CPA 20 PieChart = Ok r /\
    profit r = 82.99 - 10 - shopify_fees r - ad_spend r.
Proof.
  exact (C1_profit_identity (H0 := binary64_comparisons)
           82.99 10 CPA 20 PieChart).
Defined.

Lemma C2_cpa_mode_witness :
  exists r : page float,
    profitcalc 82.99 10 CPA 20 PieChart = Ok r /\
    ad_spend r = 20 /\
    final_cpa r = 20 /\
    ((ad_spend r > lit 0)%py = true ->
       truediv 82.99 (ad_spend r) = Ok (final_roas r)) /\
    ((ad_spend r > lit 0)%py = false -> final_roas r = lit 0).
Proof.
  exact (C2_cpa_mode (H0 := binary64_comparisons) 82.99 10 20 PieChart).
Defined.

Lemma C3_roas_mode_witness :
  exists r : page float,
    profitcalc 100 20 ROAS 2 BarChart = Ok r /\
    ((2 > lit 0)%py = true ->
       truediv 100 2 = Ok (ad_spend r) /\
       final_cpa r = ad_spend r /\
       final_roas r = 2) /\
    ((2 <= lit 0)%py = true ->
       ad_spend r = lit 0 /\ final_cpa r = lit 0 /\ final_roas r = lit 0) /\
    ((2 == lit 0)%py = true ->
       ad_spend r = lit 0 /\ final_cpa r = lit 0 /\ final_roas r = lit 0).
Proof.
  exact (C3_roas_mode (H0 := binary64_comparisons) 100 20 2 BarChart).
Defined.

Lemma C8_never_raises_witness :
  exists r : page float, profitcalc 0 0 CPA 0 PieChart = Ok r.
Proof.
  exact (proj1 (C8_never_raises (H0 := binary64_comparisons))
           0 0 CPA 0 PieChart).
Defined.

Lemma C7_breakeven_zero_profit_witness :
  exists r : breakeven_metrics float,
    calculate_breakeven_metrics 82.99 10 2.70671 = Ok r /\
    (is_finite (breakeven_cpa r) = true ->
     82.99 - 10 - 2.70671 - breakeven_cpa r = 0) /\
    (is_finite (breakeven_cpa r) = false ->
     is_nan (82.99 - 10 - 2.70671 - breakeven_cpa r) = true).
Proof.
  exact (C7_breakeven_zero_profit 82.99 10 2.70671).
Defined.

Lemma C4_shopify_fees_witness :
  (calculate_shopify_fees 10 <= calculate_shopify_fees 20)%py = true.
Proof.
  apply (proj2 (proj2 C4_shopify_fees) 10 20); reflexivity.
Defined.

Lemma C6_fees_bound_witness :
  exists r : page float,
    profitcalc 100 20 ROAS 2 BarChart = Ok r /\
    (shopify_fees r >= lit 0.30)%py = true.
Proof.
  apply (proj2 C6_fees_bound 100 20 ROAS 2 BarChart). reflexivity.
Defined.

Lemma C9_chart_values_witness :
  exists r : page float,
    profitcalc 0 0 CPA 0 PieChart = Ok r /\
    Forall (fun x : float => (lit 0 <= x)%py = true)
           (firstn 3 (fig_values (fig r))).
Proof.
  apply (proj2 C9_chart_values 0 0 CPA 0 PieChart); reflexivity.
Defined.

Lemma C10_cpa_times_roas_witness :
  exists r : page float,
    profitcalc 1 0 CPA 49 PieChart = Ok r /\
    (final_cpa r * final_roas r)%py = (49 * quot 1 49)%py.
Proof.
  apply (proj2 C10_cpa_times_roas 1 0 CPA 49 PieChart). reflexivity.
Defined.

(** C7 as stated fails: with price 0 and a COGS and fees equal to the
    largest finite float, the breakeven CPA overflows to minus infinity, and
    the profit formula at that ad spend is a NaN, not zero. *)
Lemma C7_counterexample :
  exists r : breakeven_metrics float,
    calculate_breakeven_metrics 0 1.7976931348623157e308
      1.7976931348623157e308 = Ok r /\
    breakeven_cpa r = neg_infinity /\
    is_nan (0 - 1.7976931348623157e308 - 1.7976931348623157e308
            - breakeven_cpa r) = true /\
    (0 - 1.7976931348623157e308 - 1.7976931348623157e308
     - breakeven_cpa r == lit 0)%py = false.
Proof.
  eexists. split; [vm_compute; reflexivity|].
  repeat split; vm_compute; reflexivity.
Qed.

(** C6 as stated fails: a negative product price, which
    [calculate_shopify_fees] accepts, gives fees below 0.30. *)
Lemma C6_counterexample :
  exists r : page float,
    profitcalc (-1) 0 CPA 0 PieChart = Ok r /\
    shopify_fees r = 0.27099999999999996 /\
    (shopify_fees r >= lit 0.30)%py = false.
Proof.
  eexists. split; [vm_compute; reflexivity|].
  split; vm_compute; reflexivity.
Qed.

(** C8 as stated fails in its account of the guards: with price 10 and COGS
    20 the breakeven denominator is negative, and the breakeven ROAS is the
    quotient by it, not 0. *)
Lemma C8_counterexample :
  exists r : page float,
    profitcalc 10 20 CPA 20 PieChart = Ok r /\
    (breakeven_cpa (breakeven_data r) <= lit 0)%py = true /\
    (breakeven_roas (breakeven_data r) == lit 0)%py = false /\
    breakeven_roas (breakeven_data r) <> lit 0.
Proof.
  eexists. split; [vm_compute; reflexivity|].
  repeat split; try (vm_compute; reflexivity).
  apply float_eqb_false_neq; vm_compute; reflexivity.
Qed.

(** C9 as stated fails: in scenario 3 of the specification (price 0, COGS 0,
    desired CPA 0) the profit is negative and reaches the chart as it is. *)
Lemma C9_counterexample :
  exists r : page float,
    profitcalc 0 0 CPA 0 PieChart = Ok r /\
    fig_values (fig r) = [0; 0.29999999999999999; 0; -0.29999999999999999] /\
    Exists (fun x : float => (x >= lit 0)%py = false) (fig_values (fig r)).
Proof.
  eexists. split; [vm_compute; reflexivity|].
  split; [vm_compute; reflexivity|].
  cbn. do 3 apply Exists_cons_tl. apply Exists_cons_hd.
  vm_compute. reflexivity.
Qed.

(** C10 as stated fails: with price 1 and a desired CPA of 49 the ROAS is
    the float nearest to 1/49, and 49 times it is the float just below 1. *)
Lemma C10_counterexample :
  exists r : page float,
    profitcalc 1 0 CPA 49 PieChart = Ok r /\
    (ad_spend r > lit 0)%py = true /\
    (final_cpa r * final_roas r)%py = 0.99999999999999989 /\
    (final_cpa r * final_roas r)%py <> 1.
Proof.
  eexists. split; [vm_compute; reflexivity|].
  repeat split; try (vm_compute; reflexivity).
  apply float_eqb_false_neq; vm_compute; reflexivity.
Qed.

End Runs.

(** ** The further properties on concrete inputs *)

Section Binary64Instances.

Local Open Scope float_scope.

Lemma profit_is_breakeven_minus_ad_spend_witness :
  exists r : page float,
    profitcalc 82.99 10 ROAS 2 BarChart = Ok r /\
    profit r = (breakeven_cpa (breakeven_data r) - ad_spend r)%py.
Proof.
  exact (profit_is_breakeven_minus_ad_spend (H0 := binary64_comparisons)
           82.99 10 ROAS 2 BarChart).
Defined.

Lemma fees_binary64_monotone_witness :
  (calculate_shopify_fees 82.99 <= calculate_shopify_fees 100)%py = true.
Proof.
  apply (proj1 fees_binary64_monotone 82.99 100); reflexivity.
Defined.

Lemma fees_binary64_at_least_fixed_fee_witness :
  exists r : page float,
    profitcalc 0 0 CPA 0 PieChart = Ok r /\
    (shopify_fees r >= lit 0.30)%py = true.
Proof.
  apply (@fees_binary64_at_least_fixed_fee 0 0 CPA 0 PieChart). reflexivity.
Defined.

Lemma cpa_at_breakeven_binary64_witness :
  exists r : page float,
    profitcalc 82.99 10 CPA
      (82.99 - 10 - calculate_shopify_fees 82.99)%py PieChart = Ok r /\
    final_cpa r = breakeven_cpa (breakeven_data r) /\
    final_roas r = breakeven_roas (breakeven_data r) /\
    profit r = 0.
Proof.
  apply (@cpa_at_breakeven_binary64 82.99 10 PieChart); reflexivity.
Defined.

Lemma page_binary64_nonneg_witness :
  exists r : page float,
    profitcalc 82.99 10 ROAS 2 BarChart = Ok r /\
    Forall (fun x : float => (lit 0 <= x)%py = true)
           (firstn 3 (fig_values (fig r))) /\
    (lit 0 <= final_cpa r)%py = true /\
    (lit 0 <= final_roas r)%py = true.
Proof.
  apply (@page_binary64_nonneg 82.99 10 ROAS 2 BarChart); reflexivity.
Defined.

Lemma breakeven_roas_sign_binary64_witness :
  exists r : page float,
    profitcalc 10 20 CPA 20 PieChart = Ok r /\
    ((breakeven_cpa (breakeven_data r) > lit 0)%py = true ->
     (breakeven_roas (breakeven_data r) >= lit 0)%py = true) /\
    ((lit 0 > breakeven_cpa (breakeven_data r))%py = true ->
     (breakeven_roas (breakeven_data r) <= lit 0)%py = true).
Proof.
  apply (@breakeven_roas_sign_binary64 10 20 CPA 20 PieChart); reflexivity.
Defined.

Lemma cpa_profit_antitone_binary64_witness :
  exists r1 r2 : page float,
    profitcalc 82.99 10 CPA 0.1 PieChart = Ok r1 /\
    profitcalc 82.99 10 CPA 0.2 PieChart = Ok r2 /\
    (profit r2 <= profit r1)%py = true.
Proof.
  apply (@cpa_profit_antitone_binary64 82.99 10 0.1 0.2 PieChart);
    reflexivity.
Defined.

Lemma profit_at_most_breakeven_binary64_witness :
  exists r : page float,
    profitcalc 82.99 10 ROAS 2 BarChart = Ok r /\
    (is_finite (breakeven_cpa (breakeven_data r)) = true ->
     (profit r <= breakeven_cpa (breakeven_data r))%py = true).
Proof.
  apply (@profit_at_most_breakeven_binary64 82.99 10 ROAS 2 BarChart);
    reflexivity.
Defined.

End Binary64Instances.
